(** * Wildlife monitoring system: trigger controller and dashboard

    A shallow embedding of [main_controller.py] and [web_dashboard.py].

    The controller is a callback [on_message] run for each MQTT trigger.  It
    threads one piece of program state (the global [is_processing], the
    [captures] table, the wall clock) through calls to external tools whose
    outcomes are not decided by the program: these are read from an
    environment record, so every statement below is quantified over all the
    ways the external world can behave.

    The file gives the programs first, then the vocabulary and the sample
    inputs of the properties, then the properties with their proofs. *)

From Stdlib Require Import String Ascii QArith Lqa.
From stdpp Require Import base option list sorting strings pretty gmap.

Set Warnings "-register-all".

(** ** Values that cross the program's boundaries *)

(** What [json.loads] can return.  An object is a Python [dict]. *)
Inductive json : Type :=
  | JNull
  | JBool (b : bool)
  | JInt (z : Z)
  | JFloat (q : Q)
  | JStr (s : string)
  | JArr (l : list json)
  | JObj (m : gmap string json).

(** Python exceptions the two programs can meet; all of them derive from
    [Exception]. *)
Inductive exn : Type :=
  | UnicodeDecodeError
  | JSONDecodeError
  | AttributeError
  | OSError
  | CalledProcessError
  | RuntimeError
  | SqliteError
  | RequestException.

(** ** The [captures] table *)

Module Captures.

(** One line of the table created by [init_db].  A confidence is a finite
    Python float; the programs only store and compare confidences, and on
    finite floats comparison is the comparison of the numbers they denote, so
    a confidence is modelled as a rational.  The four telemetry columns hold
    whatever value the trigger carried. *)
Record row : Type := Row {
  id : nat;
  timestamp : string;
  classification : string;
  confidence : Q;
  video_path : option string;
  temp : json;
  humidity : json;
  battery : json;
  light_state : json
}.

(** [id INTEGER PRIMARY KEY AUTOINCREMENT]: one more than the largest id. *)
Definition next_id (t : list row) : nat := S (foldr Nat.max 0 (id <$> t)).

End Captures.

(** ** Text helpers *)

Definition is_lower (c : ascii) : bool :=
  let n := nat_of_ascii c in (97 <=? n)%nat && (n <=? 122)%nat.

Definition is_upper (c : ascii) : bool :=
  let n := nat_of_ascii c in (65 <=? n)%nat && (n <=? 90)%nat.

Definition upper (c : ascii) : ascii :=
  if is_lower c then ascii_of_nat (nat_of_ascii c - 32) else c.

Definition lower (c : ascii) : ascii :=
  if is_upper c then ascii_of_nat (nat_of_ascii c + 32) else c.

Fixpoint string_map (f : ascii -> ascii) (s : string) : string :=
  match s with
  | EmptyString => EmptyString
  | String c r => String (f c) (string_map f r)
  end.

(** [str.capitalize] on ASCII text: first character upper case, the rest
    lower case. *)
Definition capitalize (s : string) : string :=
  match s with
  | EmptyString => EmptyString
  | String c r => String (upper c) (string_map lower r)
  end.

(** [os.path.join dir name] for a relative [name]. *)
Definition path_join (dir name : string) : string := dir +:+ "/" +:+ name.

(** [a > b] on confidences. *)
Definition Qgtb (a b : Q) : bool := negb (Qle_bool a b).

(** * The controller: [main_controller.py] *)

Module Controller.

Definition CAPTURE_DIR : string := "/home/param/captures".

Definition ANIMAL_CLASSES : list string :=
  ["bird"; "cat"; "dog"; "horse"; "sheep"; "cow";
   "elephant"; "bear"; "zebra"; "giraffe"].

(** ** Classification: the loop of [run_animal_detection] *)

(** A YOLO box: [int(box.cls[0])] and [float(box.conf[0])]. *)
Record box : Type := Box { cls : nat; conf : Q }.

(** The dict [best_detection]. *)
Record detection : Type := Detection {
  is_animal : bool;
  class : string;
  confidence : Q
}.

Definition default_detection : detection :=
  {| is_animal := false; class := "False Positive"; confidence := 0 |}.

Section Classify.
(** [model.names]: class id to class name. *)
Variable names : nat -> string.

(** Lines 168-175: one iteration of the inner loop. *)
Definition consider (best_detection : detection) (b : box) : detection :=
  let class_name := names (cls b) in
  let confidence_ := conf b in
  if bool_decide (class_name ∈ ANIMAL_CLASSES)
     && Qgtb confidence_ (confidence best_detection)
  then {| is_animal := true;
          class := capitalize class_name;
          confidence := confidence_ |}
  else best_detection.

(** Lines 164-178: [for r in results: for box in r.boxes: ...]. *)
Definition scan (results : list (list box)) : detection :=
  foldl (fun best r => foldl consider best r) default_detection results.
End Classify.

(** ** The program state and the outside world *)

(** The dict [db_data] built on lines 247-256. *)
Module DbData.
Record t : Type := Make {
  timestamp : string;
  classification : string;
  confidence : Q;
  video_path : string;
  temp : json;
  humidity : json;
  battery : json;
  light_state : json
}.
End DbData.

(** The external calls of the program. *)
Inductive op : Type :=
  | Makedirs        (* os.makedirs(CAPTURE_DIR, exist_ok=True) *)
  | RpicamVid       (* subprocess.run(record_command, check=True) *)
  | FfmpegConvert   (* subprocess.run(convert_command, check=True) *)
  | RemoveRaw       (* os.remove(raw_video_path) *)
  | FfmpegFrame     (* subprocess.run(command, check=True) in extract_frame *)
  | YoloPredict     (* model(frame_path, verbose=False) *)
  | SqliteInsert    (* connect, execute INSERT, commit *)
  | NtfyPost.       (* open(frame_path) and requests.post *)

(** The exception an external call raises when it fails. *)
Definition error_of (o : op) : exn :=
  match o with
  | Makedirs | RemoveRaw => OSError
  | RpicamVid | FfmpegConvert | FfmpegFrame => CalledProcessError
  | YoloPredict => RuntimeError
  | SqliteInsert => SqliteError
  | NtfyPost => RequestException
  end.

(** What the program prints or does.  In a log each entry is stamped with
    the clock reading at which it happened. *)
Inductive event : Type :=
  | Gate (b : bool)                    (* is_processing = b *)
  | BusyIgnored                        (* "--- BUSY: Ignoring trigger ..." *)
  | TriggerReceived                    (* "--- TRIGGER RECEIVED ---" *)
  | Ran (o : op) (ok : bool)           (* an external call returned / raised *)
  | SavingToDatabase (d : DbData.t)    (* save_to_db entered *)
  | SendingNotification (r : detection)  (* send_notification entered *)
  | TaskComplete                       (* "--- TASK COMPLETE ---" *)
  | ErrorInOnMessage (e : exn)         (* "Error in on_message: ..." *)
  | Slept (seconds : nat).             (* time.sleep returned *)

Record world : Type := World {
  is_processing : bool;               (* the global flag *)
  captures : list Captures.row;       (* the table in DB_FILE *)
  clock : nat                         (* wall clock, in seconds *)
}.

(** Everything one delivery of a trigger depends on and the program does
    not decide. *)
Record env : Type := Env {
  payload : exn + json;        (* msg.payload.decode('utf-8'), json.loads *)
  succeeds : op -> bool;       (* does the call return normally *)
  takes : op -> nat;           (* seconds the call blocks *)
  oversleep : nat;             (* seconds time.sleep overruns *)
  names : nat -> string;       (* model.names *)
  results : list (list box);   (* what model(frame_path) returns *)
  strftime : string -> nat -> string   (* datetime.strftime of a reading *)
}.

(** ** A state, trace and exception monad *)

Inductive res (A : Type) : Type :=
  | Val (a : A)
  | Exc (e : exn).
Arguments Val {A} a.
Arguments Exc {A} e.

Definition log : Type := list (nat * event).

(** A computation runs from a state and gives a value or an exception, the
    new state, and what it printed or did on the way. *)
Definition M (A : Type) : Type := world -> res A * world * log.

Definition ret {A} (a : A) : M A := fun w => (Val a, w, []).

Definition bind {A B} (m : M A) (k : A -> M B) : M B :=
  fun w => match m w with
           | (Val a, w', l) =>
               match k a w' with
               | (r, w'', l') => (r, w'', l ++ l')
               end
           | (Exc e, w', l) => (Exc e, w', l)
           end.

Definition raise {A} (e : exn) : M A := fun w => (Exc e, w, []).

(** [try: m except Exception as e: h e]. *)
Definition try_except {A} (m : M A) (h : exn -> M A) : M A :=
  fun w => match m w with
           | (Val a, w', l) => (Val a, w', l)
           | (Exc e, w', l) =>
               match h e w' with
               | (r, w'', l') => (r, w'', l ++ l')
               end
           end.

Declare Scope py_scope.
Delimit Scope py_scope with py.
Notation "x <- m ;; k" := (bind m (fun x => k))
  (at level 90, m at next level, right associativity) : py_scope.
Notation "m ;;; k" := (bind m (fun _ => k))
  (at level 90, right associativity) : py_scope.
Open Scope py_scope.

Definition emit (e : event) : M unit :=
  fun w => (Val tt, w, [(clock w, e)]).

Definition tick (n : nat) : M unit :=
  fun w => (Val tt,
            {| is_processing := is_processing w; captures := captures w;
               clock := clock w + n |},
            []).

(** [datetime.now()]. *)
Definition now : M nat := fun w => (Val (clock w), w, []).

Definition get_is_processing : M bool :=
  fun w => (Val (is_processing w), w, []).

Definition set_is_processing (b : bool) : M unit :=
  fun w => (Val tt,
            {| is_processing := b; captures := captures w;
               clock := clock w |},
            [(clock w, Gate b)]).

(** An external call: it blocks for a while, then returns or raises. *)
Definition run (e : env) (o : op) : M unit :=
  tick (takes e o) ;;;
  emit (Ran o (succeeds e o)) ;;;
  if succeeds e o then ret tt else raise (error_of o).

(** [time.sleep(n)]: at least [n] seconds. *)
Definition sleep (e : env) (n : nat) : M unit :=
  tick (n + oversleep e) ;;; emit (Slept n).

(** The line that the INSERT of [save_to_db] adds for [d]. *)
Definition row_of (table : list Captures.row) (d : DbData.t) : Captures.row :=
  {| Captures.id := Captures.next_id table;
     Captures.timestamp := DbData.timestamp d;
     Captures.classification := DbData.classification d;
     Captures.confidence := DbData.confidence d;
     Captures.video_path := Some (DbData.video_path d);
     Captures.temp := DbData.temp d;
     Captures.humidity := DbData.humidity d;
     Captures.battery := DbData.battery d;
     Captures.light_state := DbData.light_state d |}.

(** The INSERT of [save_to_db] once it goes through. *)
Definition insert (d : DbData.t) : M unit :=
  fun w =>
    (Val tt,
     {| is_processing := is_processing w;
        captures := captures w ++ [row_of (captures w) d];
        clock := clock w |},
     []).

(** [sensor_data.get(key)]: only a dict has [get]; a missing key gives
    [None]. *)
Definition get (sensor_data : json) (key : string) : M json :=
  match sensor_data with
  | JObj m => ret (default JNull (m !! key))
  | _ => raise AttributeError
  end.

(** Python truth value of a path or [None]. *)
Definition truthy (p : option string) : bool :=
  match p with
  | Some s => negb (String.eqb s "")
  | None => false
  end.

(** ** The functions of the program *)

(** Lines 61-84.  The [with] block commits the INSERT or, when anything in
    it raises, leaves the table as it was; the [except] prints and goes
    on. *)
Definition save_to_db (e : env) (data : DbData.t) : M unit :=
  emit (SavingToDatabase data) ;;;
  try_except
    (run e SqliteInsert ;;; insert data)
    (fun _ => ret tt).

(** Lines 87-138.  [os.makedirs] is outside any [try]; a failed recording
    or conversion returns [None]; a failed clean-up only prints. *)
Definition record_video (e : env) (filename_base : string)
  : M (option string) :=
  run e Makedirs ;;;
  let raw_video_path := path_join CAPTURE_DIR (filename_base +:+ ".h264") in
  let final_video_path := path_join CAPTURE_DIR (filename_base +:+ ".mp4") in
  recorded <- try_except (run e RpicamVid ;;; ret true)
                         (fun _ => ret false) ;;
  if negb recorded then ret None else
  converted <- try_except (run e FfmpegConvert ;;; ret true)
                          (fun _ => ret false) ;;
  if negb converted then ret None else
  try_except (run e RemoveRaw) (fun _ => ret tt) ;;;
  ret (Some final_video_path).

(** Lines 140-156. *)
Definition extract_frame (e : env) (video_path frame_path : string)
  : M (option string) :=
  try_except
    (run e FfmpegFrame ;;; ret (Some frame_path))
    (fun _ => ret None).

(** Lines 157-178: the call of the model, then the loop [scan]. *)
Definition run_animal_detection (e : env) (frame_path : string)
  : M detection :=
  run e YoloPredict ;;;
  ret (scan (names e) (results e)).

(** Lines 180-199.  Opening the frame and posting it are inside the
    [try]; the [except] prints and goes on. *)
Definition send_notification (e : env) (result : detection)
    (frame_path : string) : M unit :=
  emit (SendingNotification result) ;;;
  try_except (run e NtfyPost) (fun _ => ret tt).

(** Lines 224-226. *)
Definition decode (e : env) : M json :=
  match payload e with
  | inl x => raise x
  | inr j => ret j
  end.

(** Lines 223-265, the body of the [try]. A [return] leaves the body
    normally. *)
Definition stages (e : env) : M unit :=
  sensor_data <- decode e ;;
  t <- now ;;
  let timestamp := strftime e "%Y%m%d_%H%M%S" t in
  let video_filename_base := "vid_" +:+ timestamp in
  let frame_filename := "frame_" +:+ timestamp +:+ ".jpg" in
  video_path <- record_video e video_filename_base ;;
  if negb (truthy video_path) then ret tt else
  let video_path := default "" video_path in
  let frame_path := path_join CAPTURE_DIR frame_filename in
  frame <- extract_frame e video_path frame_path ;;
  if negb (truthy frame) then ret tt else
  ai_result <- run_animal_detection e frame_path ;;
  t' <- now ;;
  temp <- get sensor_data "temp" ;;
  humidity <- get sensor_data "humidity" ;;
  battery <- get sensor_data "battery" ;;
  light_state <- get sensor_data "light_state" ;;
  let db_data :=
    {| DbData.timestamp := strftime e "%Y-%m-%d %H:%M:%S" t';
       DbData.classification := class ai_result;
       DbData.confidence := confidence ai_result;
       DbData.video_path := video_path;
       DbData.temp := temp;
       DbData.humidity := humidity;
       DbData.battery := battery;
       DbData.light_state := light_state |} in
  save_to_db e db_data ;;;
  (if is_animal ai_result
   then send_notification e ai_result frame_path
   else ret tt) ;;;
  emit TaskComplete.

(** Lines 222-268: the [try] with its [except Exception]. *)
Definition guarded (e : env) : M unit :=
  try_except (stages e) (fun x => emit (ErrorInOnMessage x)).

(** Lines 271-275: the [finally] block. *)
Definition cooldown (e : env) : M unit :=
  sleep e 10 ;;;
  set_is_processing false.

(** Lines 209-275. *)
Definition on_message (e : env) : M unit :=
  busy <- get_is_processing ;;
  if busy then emit BusyIgnored else
  set_is_processing true ;;;
  emit TriggerReceived ;;;
  guarded e ;;;
  cooldown e.

(** The state one delivery leaves, and what it printed or did. *)
Definition deliver (e : env) (w : world) : world := snd (fst (on_message e w)).

Definition added (e : env) (w : world) : log := snd (on_message e w).

End Controller.

(** * Interleaved deliveries of [on_message]

    [on_message] reads the flag on line 214 and writes it on line 219: two
    statements.  To speak about deliveries that overlap, the callback is cut
    at the points where another invocation can run in between. *)

Module Gate.
Import Controller.

(** Where an invocation of [on_message] stands. *)
Inductive pc : Type :=
  | AtCheck      (* about to test [is_processing], line 214 *)
  | AtFlip       (* found it false, about to set it, line 219 *)
  | InTry        (* admitted, the stages ahead, line 221 *)
  | InFinally    (* stages over, the cooldown ahead, line 271 *)
  | Returned.

Record call : Type := Call { at_pc : pc; delivery : env }.

Record system : Type := System {
  shared : world;
  printed : log;
  calls : list call
}.

(** An invocation that has passed the check and not yet released the flag:
    its run is in progress. *)
Definition admitted (c : call) : bool :=
  match at_pc c with
  | InTry | InFinally => true
  | _ => false
  end.

Definition at_flip (c : call) : bool :=
  match at_pc c with
  | AtFlip => true
  | _ => false
  end.

(** Invocation [i] moves to its next point. *)
Definition step (i : nat) (s : system) : system :=
  match calls s !! i with
  | None => s
  | Some c =>
    let e := delivery c in
    let goto (p : pc) (m : M unit) :=
      {| shared := snd (fst (m (shared s)));
         printed := printed s ++ snd (m (shared s));
         calls := <[i := {| at_pc := p; delivery := e |}]> (calls s) |} in
    match at_pc c with
    | AtCheck =>
        if is_processing (shared s)
        then goto Returned (emit BusyIgnored)
        else goto AtFlip (ret tt)
    | AtFlip => goto InTry (set_is_processing true ;;; emit TriggerReceived)
    | InTry => goto InFinally (guarded e)
    | InFinally => goto Returned (cooldown e)
    | Returned => s
    end
  end.

(** A schedule names the invocation that moves at each instant. *)
Fixpoint exec (schedule : list nat) (s : system) : system :=
  match schedule with
  | [] => s
  | i :: rest => exec rest (step i s)
  end.

(** All deliveries pending, none started. *)
Definition start (w : world) (es : list env) : system :=
  {| shared := w; printed := []; calls := Call AtCheck <$> es |}.

(** No invocation other than [i] stands between its check and its flip. *)
Definition unbroken (i : nat) (s : system) : bool :=
  forallb (fun jc => (fst jc =? i)%nat || negb (at_flip (snd jc)))
          (imap pair (calls s)).

(** The schedule never lets another invocation move between one
    invocation's check and its flip: what a transport that delivers one
    callback at a time gives. *)
Fixpoint serial (schedule : list nat) (s : system) : bool :=
  match schedule with
  | [] => true
  | i :: rest => unbroken i s && serial rest (step i s)
  end.

End Gate.

(** * The dashboard: [web_dashboard.py] *)

Module Dashboard.

(** [os.path.basename]: what follows the last slash. *)
Fixpoint has_slash (s : string) : bool :=
  match s with
  | EmptyString => false
  | String c r => Ascii.eqb c "/"%char || has_slash r
  end.

Fixpoint basename (s : string) : string :=
  match s with
  | EmptyString => EmptyString
  | String _ r => if has_slash s then basename r else s
  end.

(** [ORDER BY id DESC]. *)
Definition id_desc (a b : Captures.row) : Prop :=
  (Captures.id b <= Captures.id a)%nat.

#[export] Instance id_desc_dec : RelDecision id_desc.
Proof. intros a b. unfold id_desc. apply _. Defined.

(** [SELECT * FROM captures ORDER BY id DESC], [fetchall]. *)
Definition select_all (table : list Captures.row) : list Captures.row :=
  merge_sort id_desc table.

(** A dict [row] of [processed_captures]: the columns and, when the row has
    a video path, the key [web_video_path]. *)
Record capture : Type := Capture {
  columns : Captures.row;
  web_video_path : option string
}.

(** Lines 47-52. *)
Definition process (cap : Captures.row) : capture :=
  {| columns := cap;
     web_video_path :=
       if Controller.truthy (Captures.video_path cap)
       then Some (basename (default "" (Captures.video_path cap)))
       else None |}.

(** The route [/]: the list handed to the template, or the error text when
    the table cannot be read ([None]). *)
Definition index (database : option (list Captures.row))
  : string + list capture :=
  match database with
  | Some table => inr (process <$> select_all table)
  | None => inl "An error occurred reading the database"
  end.

End Dashboard.

(** ** The connection of a request: [get_db] and [close_connection] *)

Module Connection.

(** The application context [g] of one request, and the connections that
    [sqlite3.connect] has handed out and [close] has been called on.  A
    connection is named by its rank among the connections opened. *)
Record context : Type := Context {
  database : option nat;      (* g._database, when the attribute is set *)
  opened : nat;               (* connections opened so far *)
  closed : list nat           (* connections closed, latest first *)
}.

(** Lines 17-22.  [connects] tells whether [sqlite3.connect] returns; when
    it raises, [g] is left as it was. *)
Definition get_db (connects : bool) (g : context) : (exn + nat) * context :=
  match database g with
  | Some db => (inr db, g)
  | None =>
      if connects
      then (inr (opened g),
            {| database := Some (opened g);
               opened := S (opened g);
               closed := closed g |})
      else (inl SqliteError, g)
  end.

(** Lines 24-28, run when the context is torn down. *)
Definition close_connection (g : context) : context :=
  match database g with
  | Some db =>
      {| database := database g; opened := opened g;
         closed := db :: closed g |}
  | None => g
  end.

(** A request that calls [get_db] once per entry of [tries], each entry
    telling whether [sqlite3.connect] would return at that moment: the
    values the calls return, and the context left. *)
Fixpoint get_db_each (tries : list bool) (g : context)
  : list (exn + nat) * context :=
  match tries with
  | [] => ([], g)
  | c :: rest =>
      let (r, g') := get_db c g in
      let (rs, g'') := get_db_each rest g' in
      (r :: rs, g'')
  end.

End Connection.

(** * Start-up and the message loop: [init_db] and [__main__] *)

Module Startup.
Import Controller.

(** The file [DB_FILE]: the rows of its [captures] table, or [None] when
    it has no such table. *)
Definition store : Type := option (list Captures.row).

(** Lines 38-60.  [CREATE TABLE IF NOT EXISTS] makes an empty table when
    there is none and leaves an existing one alone; when anything in the
    [try] raises ([ok] is false) the error is printed and the file is as
    before. *)
Definition init_db (ok : bool) (db : store) : store :=
  if ok then Some (default [] db) else db.

(** What start-up depends on: whether [YOLO(MODEL_FILE)] returns, whether
    the statements of [init_db] go through, whether the MQTT client is
    made and connects. *)
Record boot : Type := Boot {
  model_loads : bool;
  db_ok : bool;
  connects : bool
}.

Inductive outcome : Type :=
  | LoopForever      (* client.loop_forever() is entered *)
  | MainLoopError.   (* "Main loop error: ..." *)

(** Lines 277-298, up to the call of [loop_forever]. *)
Definition main (b : boot) (db : store) : outcome * store :=
  if model_loads b then
    let db' := init_db (db_ok b) db in
    if connects b then (LoopForever, db') else (MainLoopError, db')
  else (MainLoopError, db).

(** [loop_forever] calls [on_message] for each message received, one call
    after the other on the thread of the loop: the state after the
    deliveries [es] and all they printed or did. *)
Fixpoint dispatch (es : list env) (w : world) : world * log :=
  match es with
  | [] => (w, [])
  | e :: rest =>
      let w' := deliver e w in
      let (w'', l) := dispatch rest w' in
      (w'', added e w ++ l)
  end.

End Startup.

(** * Vocabulary of the properties *)

Section Vocabulary.
Import Controller Gate.

(** The label of a box is in the animal set. *)
Definition animal (names : nat -> string) (b : box) : Prop :=
  names (cls b) ∈ ANIMAL_CLASSES.

(** What the loop has established after the boxes [bs], ending with the
    running best [d]. *)
Definition best_so_far (names : nat -> string) (bs : list box)
    (d : detection) : Prop :=
  (is_animal d = false /\ d = default_detection /\
     forall b, b ∈ bs -> animal names b -> (conf b <= 0)%Q)
  \/
  (is_animal d = true /\
     exists pre b post,
       bs = pre ++ b :: post /\ animal names b /\ (0 < conf b)%Q /\
       confidence d = conf b /\ class d = capitalize (names (cls b)) /\
       (forall b', b' ∈ pre -> animal names b' -> (conf b' < conf b)%Q) /\
       (forall b', b' ∈ post -> animal names b' -> (conf b' <= conf b)%Q)).

(** An assignment to [is_processing]. *)
Definition is_gate (ev : event) : bool :=
  match ev with
  | Gate _ => true
  | _ => false
  end.

(** A computation is orderly when it leaves the flag alone, only lets the
    clock advance, and stamps what it logs with readings between its start
    and its end. *)
Definition orderly {A} (m : M A) : Prop :=
  forall w r w' l, m w = (r, w', l) ->
    is_processing w' = is_processing w /\
    clock w <= clock w' /\
    forall t ev, (t, ev) ∈ l ->
      clock w <= t <= clock w' /\ is_gate ev = false.

(** A computation that neither changes the state nor logs. *)
Definition silent {A} (m : M A) : Prop :=
  forall w, exists r, m w = (r, w, []).

(** No two invocations are admitted at once. *)
Definition mutual_exclusion (s : system) : Prop :=
  forall i j ci cj,
    calls s !! i = Some ci -> calls s !! j = Some cj ->
    admitted ci = true -> admitted cj = true -> i = j.

(** Past the check and not yet released. *)
Definition holding (c : call) : bool := at_flip c || admitted c.

(** The flag tells the truth: at most one invocation is past the check,
    and while the flag is clear none is admitted. *)
Definition gate_correct (s : system) : Prop :=
  (forall i j ci cj,
     calls s !! i = Some ci -> calls s !! j = Some cj ->
     holding ci = true -> holding cj = true -> i = j) /\
  (is_processing (shared s) = false ->
   forall i c, calls s !! i = Some c -> admitted c = false).

(** How often an event of some kind occurs in a log. *)
Fixpoint count (p : event -> bool) (l : log) : nat :=
  match l with
  | [] => 0
  | (_, ev) :: rest => (if p ev then 1 else 0) + count p rest
  end.

Definition is_save (ev : event) : bool :=
  match ev with
  | SavingToDatabase _ => true
  | _ => false
  end.

Definition is_notify (ev : event) : bool :=
  match ev with
  | SendingNotification _ => true
  | _ => false
  end.

Definition is_post (ev : event) : bool :=
  match ev with
  | Ran NtfyPost _ => true
  | _ => false
  end.

(** [record_video] returns [None]: the recording or the conversion
    fails. *)
Definition capture_fails (e : env) : Prop :=
  succeeds e Makedirs = true /\
  (succeeds e RpicamVid = false \/ succeeds e FfmpegConvert = false).

(** [extract_frame] returns [None]. *)
Definition extract_fails (e : env) : Prop :=
  succeeds e FfmpegFrame = false.

(** Capture, extraction and classification all complete. *)
Definition classified (e : env) : Prop :=
  succeeds e Makedirs = true /\ succeeds e RpicamVid = true /\
  succeeds e FfmpegConvert = true /\ succeeds e FfmpegFrame = true /\
  succeeds e YoloPredict = true.

(** The clock reading when classification returns, for a run that
    started in [w]. *)
Definition classified_at (e : env) (w : world) : nat :=
  clock w + takes e Makedirs + takes e RpicamVid + takes e FfmpegConvert
  + takes e RemoveRaw + takes e FfmpegFrame + takes e YoloPredict.

(** The [db_data] of a run that started in [w] with the dict [m] as
    payload. *)
Definition db_data_of (e : env) (w : world) (m : gmap string json)
  : DbData.t :=
  let d := scan (names e) (results e) in
  {| DbData.timestamp := strftime e "%Y-%m-%d %H:%M:%S" (classified_at e w);
     DbData.classification := class d;
     DbData.confidence := confidence d;
     DbData.video_path :=
       path_join CAPTURE_DIR
         ("vid_" +:+ strftime e "%Y%m%d_%H%M%S" (clock w) +:+ ".mp4");
     DbData.temp := default JNull (m !! "temp");
     DbData.humidity := default JNull (m !! "humidity");
     DbData.battery := default JNull (m !! "battery");
     DbData.light_state := default JNull (m !! "light_state") |}.

End Vocabulary.

(** * Sample inputs *)

(** An excerpt of the class names of the model. *)
Definition three_names (i : nat) : string :=
  match i with
  | 15 => "cat"
  | 16 => "dog"
  | _ => "person"
  end.

(** A stand-in for [strftime] that shows the format and the reading. *)
Definition stamp (format : string) (t : nat) : string :=
  format +:+ "@" +:+ pretty t.

(** A delivery in which every call takes one second. *)
Definition sample (p : exn + json) (ok : Controller.op -> bool)
    (rs : list (list Controller.box)) : Controller.env :=
  {| Controller.payload := p;
     Controller.succeeds := ok;
     Controller.takes := fun _ => 1;
     Controller.oversleep := 0;
     Controller.names := three_names;
     Controller.results := rs;
     Controller.strftime := stamp |}.

(** Every call succeeds except [o]. *)
Definition all_but (o : Controller.op) (o' : Controller.op) : bool :=
  match o, o' with
  | Controller.Makedirs, Controller.Makedirs
  | Controller.RpicamVid, Controller.RpicamVid
  | Controller.FfmpegConvert, Controller.FfmpegConvert
  | Controller.RemoveRaw, Controller.RemoveRaw
  | Controller.FfmpegFrame, Controller.FfmpegFrame
  | Controller.YoloPredict, Controller.YoloPredict
  | Controller.SqliteInsert, Controller.SqliteInsert
  | Controller.NtfyPost, Controller.NtfyPost => false
  | _, _ => true
  end.

Definition telemetry : json :=
  JObj {[ "temp" := JFloat 21.5; "battery" := JInt 87 ]}.


Definition a_cat : list (list Controller.box) :=
  [[Controller.Box 16 0.4; Controller.Box 15 0.9]].

Definition idle : Controller.world :=
  {| Controller.is_processing := false;
     Controller.captures := [];
     Controller.clock := 100 |}.

(** All goes well and a cat is in the frame. *)
Definition cat_seen : Controller.env :=
  sample (inr telemetry) (fun _ => true) a_cat.

(** The payload is not JSON. *)
Definition malformed : Controller.env :=
  sample (inl JSONDecodeError) (fun _ => true) a_cat.

(** The payload is the JSON number 5. *)
Definition not_an_object : Controller.env :=
  sample (inr (JInt 5)) (fun _ => true) a_cat.

(** The database cannot be written. *)
Definition db_down : Controller.env :=
  sample (inr telemetry) (all_but Controller.SqliteInsert) a_cat.

(** Neither the database nor ntfy.sh can be reached. *)
Definition offline : Controller.env :=
  sample (inr telemetry)
         (fun o => all_but Controller.SqliteInsert o
                   && all_but Controller.NtfyPost o)
         a_cat.

(** The camera fails. *)
Definition camera_down : Controller.env :=
  sample (inr telemetry) (all_but Controller.RpicamVid) a_cat.

(** A line of the table with the given id, classification and video. *)
Definition logged (i : nat) (c : string) (v : option string) : Captures.row :=
  {| Captures.id := i;
     Captures.timestamp := "2025-01-01 06:00:00";
     Captures.classification := c;
     Captures.confidence := 0;
     Captures.video_path := v;
     Captures.temp := JNull;
     Captures.humidity := JNull;
     Captures.battery := JNull;
     Captures.light_state := JNull |}.

(** A table with a false positive and a row without a video. *)
Definition history : list Captures.row :=
  [logged 2 "False Positive" (Some "/home/param/captures/vid_b.mp4");
   logged 1 "Cat" (Some "/home/param/captures/vid_a.mp4");
   logged 3 "Dog" None].

(** * More vocabulary *)

Section Vocabulary2.
Import Controller.

(** The external calls of a log, in the order they were made. *)
Fixpoint calls_of (l : log) : list op :=
  match l with
  | [] => []
  | (_, Ran o _) :: rest => o :: calls_of rest
  | _ :: rest => calls_of rest
  end.

(** The external calls in the order the program text has them. *)
Definition pipeline_order : list op :=
  [Makedirs; RpicamVid; FfmpegConvert; RemoveRaw; FfmpegFrame; YoloPredict;
   SqliteInsert; NtfyPost].

(** A call whose failure ends the run: all but the clean-up, the INSERT and
    the post. *)
Definition vital (o : op) : bool :=
  match o with
  | RemoveRaw | SqliteInsert | NtfyPost => false
  | _ => true
  end.

Definition is_complete (ev : event) : bool :=
  match ev with
  | TaskComplete => true
  | _ => false
  end.

Definition is_error (ev : event) : bool :=
  match ev with
  | ErrorInOnMessage _ => true
  | _ => false
  end.

Definition is_busy (ev : event) : bool :=
  match ev with
  | BusyIgnored => true
  | _ => false
  end.

Definition is_admission (ev : event) : bool :=
  match ev with
  | Gate true => true
  | _ => false
  end.

(** [json.loads] gave a dict. *)
Definition is_dict (p : exn + json) : bool :=
  match p with
  | inr (JObj _) => true
  | _ => false
  end.

(** [record_video] returns a path. *)
Definition captured (e : env) : bool :=
  succeeds e Makedirs && succeeds e RpicamVid && succeeds e FfmpegConvert.

(** The run gets as far as [save_to_db]. *)
Definition reaches_save (e : env) : bool :=
  is_dict (payload e) && captured e && succeeds e FfmpegFrame
  && succeeds e YoloPredict.

(** An exception leaves the stages: the payload does not parse, the capture
    directory cannot be made, the model fails, or the payload is not a
    dict when [db_data] is built. *)
Definition stage_raises (e : env) : bool :=
  match payload e with
  | inl _ => true
  | inr _ =>
      negb (succeeds e Makedirs)
      || (captured e && succeeds e FfmpegFrame
          && (negb (succeeds e YoloPredict) || negb (is_dict (payload e))))
  end.



(** The labels [run_animal_detection] can give. *)
Definition labels : list string :=
  ["False Positive"; "Bird"; "Cat"; "Dog"; "Horse"; "Sheep"; "Cow";
   "Elephant"; "Bear"; "Zebra"; "Giraffe"].

End Vocabulary2.

(** * Tactics *)

(** Open the stages of a run down to the primitive computations. *)
Ltac unfold_stages :=
  unfold Controller.guarded, Controller.stages, Controller.decode,
    Controller.record_video, Controller.extract_frame,
    Controller.run_animal_detection, Controller.save_to_db,
    Controller.send_notification, Controller.run, Controller.get,
    Controller.try_except, Controller.bind, Controller.emit, Controller.tick,
    Controller.ret, Controller.raise, Controller.now, Controller.insert.

(** Decide the outcome of each external call the goal depends on, from a
    hypothesis when there is one. *)
Ltac oracle e :=
  repeat match goal with
  | H : Controller.succeeds e ?o = _ |- context [Controller.succeeds e ?o] =>
      rewrite H; simpl
  | |- context [Controller.succeeds e ?o] =>
      destruct (Controller.succeeds e o) eqn:?; simpl
  end.

(** Find an entry in a log that is written out. *)
Ltac here :=
  repeat first [apply list_elem_of_here | apply list_elem_of_further].

(** Two orderly computations one after the other: the flag is kept, the
    clock advances, and each entry of the joint log lies within the bounds
    of the part it comes from. *)
Ltac in_sequence Hl1 Hl2 :=
  split; [congruence|]; split; [lia|];
  let H := fresh "H" in
  intros ? ? [H|H]%elem_of_app;
  [destruct (Hl1 _ _ H) | destruct (Hl2 _ _ H)];
  (split; [lia|done]).

(** * Properties *)

Lemma Qgtb_true a b : Qgtb a b = true <-> (b < a)%Q.
Proof.
  unfold Qgtb. rewrite negb_true_iff, <- not_true_iff_false, Qle_bool_iff.
  split; [apply Qnot_le_lt | apply Qlt_not_le].
Qed.

Lemma Qgtb_false a b : Qgtb a b = false <-> (a <= b)%Q.
Proof. unfold Qgtb. rewrite negb_false_iff. apply Qle_bool_iff. Qed.

(** ** Classification *)

Section ClassifyFacts.
Import Controller.
Variable names : nat -> string.

Lemma consider_cases d b :
  (animal names b /\ (confidence d < conf b)%Q /\
     consider names d b =
       {| is_animal := true; class := capitalize (names (cls b));
          confidence := conf b |})
  \/ ((animal names b -> (conf b <= confidence d)%Q) /\ consider names d b = d).
Proof.
  unfold consider, animal.
  destruct (decide (names (cls b) ∈ ANIMAL_CLASSES)) as [Hin|Hout].
  - rewrite bool_decide_eq_true_2 by done. simpl.
    destruct (Qgtb (conf b) (confidence d)) eqn:Hgt.
    + left. apply Qgtb_true in Hgt. auto.
    + right. apply Qgtb_false in Hgt. auto.
  - rewrite bool_decide_eq_false_2 by done. simpl. right. split; [|done].
    intros. contradiction.
Qed.

Lemma scan_flat results :
  scan names results = foldl (consider names) default_detection
                             (concat results).
Proof.
  unfold scan. generalize default_detection.
  induction results as [|r rs IH]; intros d; simpl; [done|].
  rewrite foldl_app. apply IH.
Qed.

Lemma best_so_far_step bs d b :
  best_so_far names bs d -> best_so_far names (bs ++ [b]) (consider names d b).
Proof.
  intros Inv.
  destruct (consider_cases d b) as [(Ha & Hlt & ->)|(Hle & ->)].
  - (* [b] becomes the running best *)
    right. split; [done|]. exists bs, b, []. simpl.
    destruct Inv as [(_ & -> & Hnone)|(_ & pre & b0 & post & -> & Ha0 & Hpos
                                        & Hc & _ & Hpre & Hpost)].
    + simpl in Hlt. repeat split; try done.
      * intros b' Hb' Hab'. specialize (Hnone b' Hb' Hab'). lra.
      * intros b' Hb'. by apply elem_of_nil in Hb'.
    + rewrite Hc in Hlt. repeat split; try done; try lra.
      * intros b' Hb' Hab'.
        apply elem_of_app in Hb' as [Hb'|Hb'].
        { specialize (Hpre b' Hb' Hab'). lra. }
        apply elem_of_cons in Hb' as [->|Hb']; [done|].
        specialize (Hpost b' Hb' Hab'). lra.
      * intros b' Hb'. by apply elem_of_nil in Hb'.
  - (* the running best stays *)
    destruct Inv as [(Hf & -> & Hnone)|(Ht & pre & b0 & post & -> & Ha0 & Hpos
                                        & Hc & Hcl & Hpre & Hpost)].
    + left. repeat split; try done.
      intros b' Hb' Hab'. apply elem_of_app in Hb' as [Hb'|Hb']; [eauto|].
      apply list_elem_of_singleton in Hb' as ->. by apply Hle.
    + right. split; [done|]. exists pre, b0, (post ++ [b]).
      rewrite <- app_assoc. simpl. repeat split; try done.
      intros b' Hb' Hab'. apply elem_of_app in Hb' as [Hb'|Hb']; [eauto|].
      apply list_elem_of_singleton in Hb' as ->. rewrite <- Hc. by apply Hle.
Qed.

Lemma best_so_far_foldl bs :
  best_so_far names bs (foldl (consider names) default_detection bs).
Proof.
  induction bs as [|b bs IH] using rev_ind.
  - left. repeat split. intros b Hb. by apply elem_of_nil in Hb.
  - rewrite foldl_app. simpl. by apply best_so_far_step.
Qed.

Lemma scan_best results :
  best_so_far names (concat results) (scan names results).
Proof. rewrite scan_flat. apply best_so_far_foldl. Qed.

End ClassifyFacts.

(** C5, as amended.  For every frame: the result is an animal exactly when
    some detection whose label is in the animal set has a confidence above
    zero; then the reported confidence is the largest among the detections
    in the set, and label and confidence are those of the first detection
    that reaches it; otherwise the result is the default.  Detections
    dog/0.4 and cat/0.9 give Cat at 0.9, and detections all outside the set
    give the default. *)
Theorem classification_best_positive_animal
    (names : nat -> string) (results : list (list Controller.box)) :
  let d := Controller.scan names results in
  let bs := concat results in
  (Controller.is_animal d = true <->
     exists b, b ∈ bs /\ animal names b /\ (0 < Controller.conf b)%Q) /\
  (Controller.is_animal d = true ->
     exists pre b post,
       bs = pre ++ b :: post /\ animal names b /\
       Controller.confidence d = Controller.conf b /\
       Controller.class d = capitalize (names (Controller.cls b)) /\
       (forall b', b' ∈ bs -> animal names b' ->
                   (Controller.conf b' <= Controller.conf b)%Q) /\
       (forall b', b' ∈ pre -> animal names b' ->
                   (Controller.conf b' < Controller.conf b)%Q)) /\
  (Controller.is_animal d = false -> d = Controller.default_detection) /\
  (forall i j, names i = "dog" -> names j = "cat" ->
     Controller.scan names [[Controller.Box i 0.4; Controller.Box j 0.9]]
     = Controller.Detection true "Cat" 0.9) /\
  ((forall b, b ∈ bs -> ~ animal names b) ->
     d = Controller.default_detection).
Proof.
  intros d bs. pose proof (scan_best names results) as Inv.
  fold d bs in Inv.
  assert (Hpos : Controller.is_animal d = true ->
     exists pre b post,
       bs = pre ++ b :: post /\ animal names b /\ (0 < Controller.conf b)%Q /\
       Controller.confidence d = Controller.conf b /\
       Controller.class d = capitalize (names (Controller.cls b)) /\
       (forall b', b' ∈ bs -> animal names b' ->
                   (Controller.conf b' <= Controller.conf b)%Q) /\
       (forall b', b' ∈ pre -> animal names b' ->
                   (Controller.conf b' < Controller.conf b)%Q)).
  { intros Ht.
    destruct Inv as [(Hf & _)|(_ & pre & b & post & E & Ha & Hp & Hc & Hcl
                               & Hpre & Hpost)]; [congruence|].
    exists pre, b, post. repeat split; try done.
    intros b' Hb' Hab'. rewrite E in Hb'.
    apply elem_of_app in Hb' as [Hb'|Hb'].
    { specialize (Hpre b' Hb' Hab'). lra. }
    apply elem_of_cons in Hb' as [->|Hb']; [lra|]. eauto. }
  assert (Hneg : Controller.is_animal d = false ->
     d = Controller.default_detection /\
     forall b, b ∈ bs -> animal names b -> (Controller.conf b <= 0)%Q).
  { intros Hf.
    destruct Inv as [(_ & E & Hn)|(Ht & _)]; [done|congruence]. }
  split; [|split; [|split; [|split]]].
  - split.
    + intros Ht. destruct (Hpos Ht) as (pre & b & post & E & Ha & Hp & _).
      exists b. split; [|done]. rewrite E.
      apply elem_of_app. right. apply elem_of_cons. by left.
    + intros (b & Hb & Ha & Hp).
      destruct (Controller.is_animal d) eqn:E; [done|].
      destruct (Hneg eq_refl) as [_ Hn]. specialize (Hn b Hb Ha). lra.
  - intros Ht. destruct (Hpos Ht) as (pre & b & post & E & Ha & _ & R).
    by exists pre, b, post.
  - intros Hf. by destruct (Hneg Hf).
  - intros i j Hi Hj. unfold Controller.scan, Controller.consider. simpl.
    rewrite Hi, Hj. reflexivity.
  - intros Hout. destruct (Controller.is_animal d) eqn:E.
    + destruct (Hpos eq_refl) as (pre & b & post & Eb & Ha & _).
      exfalso. apply (Hout b); [|done]. rewrite Eb.
      apply elem_of_app. right. apply elem_of_cons. by left.
    + by destruct (Hneg eq_refl).
Qed.

Lemma classification_best_positive_animal_witness :
  exists b, b ∈ [Controller.Box 16 0.4; Controller.Box 15 0.9] /\
            animal three_names b /\ (0 < Controller.conf b)%Q.
Proof.
  apply (proj1 (proj1 (classification_best_positive_animal
                         three_names
                         [[Controller.Box 16 0.4; Controller.Box 15 0.9]]))).
  reflexivity.
Defined.

(** C5 as stated fails: a single cat detection of confidence 0.0 has its
    label in the animal set, and the reported confidence 0.0 is the largest
    among the detections in the set, yet the result is not an animal. *)
Lemma classification_iff_fails_at_zero :
  let names := fun _ : nat => "cat" in
  let results := [[Controller.Box 0 0]] in
  let d := Controller.scan names results in
  (exists b, b ∈ concat results /\ animal names b) /\
  (forall b, b ∈ concat results -> animal names b ->
             (Controller.conf b <= Controller.confidence d)%Q) /\
  Controller.is_animal d = false.
Proof.
  simpl. split; [|split].
  - exists (Controller.Box 0 0). split; [apply elem_of_cons; by left|].
    unfold animal, Controller.ANIMAL_CLASSES. simpl.
    apply elem_of_cons. right. apply elem_of_cons. by left.
  - intros b Hb _. apply list_elem_of_singleton in Hb as ->.
    vm_compute. discriminate.
  - reflexivity.
Qed.

(** C10.  When every detection whose label is in the animal set has
    confidence 0.0, the loop returns the default result: a detection
    replaces the running best only when strictly above it, and the running
    best starts at 0.0. *)
Theorem zero_confidence_never_animal
    (names : nat -> string) (results : list (list Controller.box)) :
  (forall b, b ∈ concat results -> animal names b ->
             (Controller.conf b == 0)%Q) ->
  Controller.scan names results = Controller.default_detection.
Proof.
  intros Hzero.
  destruct (scan_best names results)
    as [(_ & E & _)|(_ & pre & b & post & E & Ha & Hp & _)]; [done|].
  assert (Hb : b ∈ concat results).
  { rewrite E. apply elem_of_app. right. apply elem_of_cons. by left. }
  specialize (Hzero b Hb Ha). lra.
Qed.

Lemma zero_confidence_never_animal_witness :
  Controller.scan (fun _ => "cat")
    [[Controller.Box 0 0; Controller.Box 1 0]; [Controller.Box 2 0]]
  = Controller.default_detection.
Proof.
  apply zero_confidence_never_animal.
  intros b Hb _. simpl in Hb.
  repeat (apply elem_of_cons in Hb as [->|Hb]; [reflexivity|]).
  by apply elem_of_nil in Hb.
Defined.

(** ** Rules for computations

    Everything in the program but the two assignments to [is_processing] is
    orderly. *)

Section Rules.
Import Controller.

Lemma silent_orderly {A} (m : M A) : silent m -> orderly m.
Proof.
  intros Hs w r w' l E. destruct (Hs w) as [r0 E0].
  rewrite E0 in E. injection E as <- <- <-.
  repeat split; try lia; by apply elem_of_nil in H.
Qed.

Lemma orderly_ret {A} (a : A) : orderly (ret a).
Proof. apply silent_orderly. intros w. by eexists. Qed.

Lemma orderly_raise {A} (x : exn) : orderly (@raise A x).
Proof. apply silent_orderly. intros w. by eexists. Qed.

Lemma orderly_now : orderly now.
Proof. apply silent_orderly. intros w. by eexists. Qed.

Lemma orderly_get j k : orderly (get j k).
Proof. apply silent_orderly. intros w. destruct j; by eexists. Qed.

Lemma orderly_emit ev : is_gate ev = false -> orderly (emit ev).
Proof.
  intros Hev w r w' l [= <- <- <-]. repeat split; try lia;
    apply list_elem_of_singleton in H; injection H as -> ->; (lia || done).
Qed.

Lemma orderly_tick n : orderly (tick n).
Proof.
  intros w r w' l [= <- <- <-]. simpl.
  repeat split; try lia; by apply elem_of_nil in H.
Qed.

Lemma orderly_insert d : orderly (insert d).
Proof.
  intros w r w' l [= <- <- <-]. simpl.
  repeat split; try lia; by apply elem_of_nil in H.
Qed.

Lemma orderly_bind {A B} (m : M A) (k : A -> M B) :
  orderly m -> (forall a, orderly (k a)) -> orderly (bind m k).
Proof.
  intros Hm Hk w r w' l. unfold bind.
  destruct (m w) as [[[a|x] w1] l1] eqn:Em.
  - destruct (k a w1) as [[r2 w2] l2] eqn:Ek. intros [= <- <- <-].
    destruct (Hm _ _ _ _ Em) as (Hf1 & Hc1 & Hl1).
    destruct (Hk a _ _ _ _ Ek) as (Hf2 & Hc2 & Hl2).
    in_sequence Hl1 Hl2.
  - intros [= <- <- <-]. apply (Hm _ _ _ _ Em).
Qed.

Lemma orderly_try {A} (m : M A) (h : exn -> M A) :
  orderly m -> (forall x, orderly (h x)) -> orderly (try_except m h).
Proof.
  intros Hm Hh w r w' l. unfold try_except.
  destruct (m w) as [[[a|x] w1] l1] eqn:Em.
  - intros [= <- <- <-]. apply (Hm _ _ _ _ Em).
  - destruct (h x w1) as [[r2 w2] l2] eqn:Eh. intros [= <- <- <-].
    destruct (Hm _ _ _ _ Em) as (Hf1 & Hc1 & Hl1).
    destruct (Hh x _ _ _ _ Eh) as (Hf2 & Hc2 & Hl2).
    in_sequence Hl1 Hl2.
Qed.

Lemma orderly_if {A} (b : bool) (m1 m2 : M A) :
  orderly m1 -> orderly m2 -> orderly (if b then m1 else m2).
Proof. by destruct b. Qed.

(** A [try] whose handler returns always returns. *)
Lemma try_except_returns {A} (m : M A) (h : exn -> M A) :
  (forall x w, exists a w' l, h x w = (Val a, w', l)) ->
  forall w, exists a w' l, try_except m h w = (Val a, w', l).
Proof.
  intros Hh w. unfold try_except.
  destruct (m w) as [[[a|x] w1] l1]; [by eauto|].
  destruct (Hh x w1) as (a & w2 & l2 & ->). eauto.
Qed.
End Rules.

Create HintDb py discriminated.
#[local] Hint Resolve orderly_ret orderly_raise orderly_now orderly_get
  orderly_tick orderly_insert : py.
#[local] Hint Extern 1 (orderly (Controller.emit _)) =>
  apply orderly_emit; reflexivity : py.
#[local] Hint Extern 2 (orderly (Controller.bind _ _)) =>
  apply orderly_bind; [|intros] : py.
#[local] Hint Extern 2 (orderly (Controller.try_except _ _)) =>
  apply orderly_try; [|intros] : py.
#[local] Hint Extern 2 (orderly (if _ then _ else _)) =>
  apply orderly_if : py.

Section ControllerFacts.
Import Controller.
Variable e : env.

Lemma orderly_run o : orderly (run e o).
Proof. unfold run. auto with py. Qed.
Hint Resolve orderly_run : py.

Lemma orderly_stages : orderly (stages e).
Proof.
  unfold stages, decode, record_video, extract_frame, run_animal_detection,
    save_to_db, send_notification.
  destruct (payload e); auto 30 with py.
Qed.

Lemma orderly_guarded : orderly (guarded e).
Proof. unfold guarded. pose proof orderly_stages. auto with py. Qed.

(** Nothing escapes the [try]: [except Exception] catches whatever a stage
    raises. *)
Lemma guarded_returns w : exists w' l, guarded e w = (Val tt, w', l).
Proof.
  destruct (try_except_returns (stages e)
              (fun x => emit (ErrorInOnMessage x))) with (w := w)
    as ([] & w' & l & E).
  - intros x w0. by eexists _, _, _.
  - by exists w', l.
Qed.

(** A delivery that finds the flag clear: the flip, the guarded stages,
    the cooldown, the release. *)
Lemma on_message_idle w :
  is_processing w = false ->
  exists w1 l1,
    guarded e {| is_processing := true; captures := captures w;
                 clock := clock w |} = (Val tt, w1, l1) /\
    on_message e w =
      (Val tt,
       {| is_processing := false; captures := captures w1;
          clock := clock w1 + (10 + oversleep e) |},
       [(clock w, Gate true); (clock w, TriggerReceived)] ++ l1 ++
       [(clock w1 + (10 + oversleep e), Slept 10);
        (clock w1 + (10 + oversleep e), Gate false)]).
Proof.
  intros Hidle.
  destruct (guarded_returns {| is_processing := true; captures := captures w;
                               clock := clock w |}) as (w1 & l1 & E).
  exists w1, l1. split; [done|].
  unfold on_message, bind, get_is_processing. rewrite Hidle. simpl.
  rewrite E. simpl. done.
Qed.

(** A delivery that finds the flag set is dropped on the spot. *)
Lemma on_message_busy w :
  is_processing w = true ->
  on_message e w = (Val tt, w, [(clock w, BusyIgnored)]).
Proof.
  intros Hbusy. unfold on_message, bind, get_is_processing.
  by rewrite Hbusy.
Qed.

(** A delivery never leaves the flag in another state than it found it:
    clear stays clear, so callbacks delivered one after the other all find
    the gate idle. *)
Lemma deliver_keeps_flag w :
  is_processing (deliver e w) = is_processing w.
Proof.
  unfold deliver. destruct (is_processing w) eqn:Hf.
  - by rewrite (on_message_busy w Hf).
  - by destruct (on_message_idle w Hf) as (w1 & l1 & _ & ->).
Qed.
End ControllerFacts.

Lemma deliveries_in_turn (es : list Controller.env) (w : Controller.world) :
  Controller.is_processing w = false ->
  Controller.is_processing
    (foldl (fun w e => Controller.deliver e w) w es) = false.
Proof.
  revert w. induction es as [|e es IH]; intros w Hf; simpl; [done|].
  apply IH. by rewrite deliver_keeps_flag.
Qed.

(** C8.  Every delivery that finds the gate idle, whatever its stages do
    (complete, abort early, raise), ends with a sleep of 10 seconds and,
    right after it, the reset of [is_processing]; the reset happens at least
    10 seconds after everything the run did before, and the flag is not
    reset earlier. *)
Theorem cooldown_precedes_release (e : Controller.env) (w : Controller.world) :
  Controller.is_processing w = false ->
  exists pre t,
    Controller.added e w =
      pre ++ [(t, Controller.Slept 10); (t, Controller.Gate false)] /\
    (forall t' ev, (t', ev) ∈ pre ->
       t' + 10 <= t /\ ev <> Controller.Gate false) /\
    Controller.is_processing (Controller.deliver e w) = false /\
    Controller.clock (Controller.deliver e w) = t.
Proof.
  intros Hidle.
  destruct (on_message_idle e w Hidle) as (w1 & l1 & Eg & E).
  destruct (orderly_guarded e _ _ _ _ Eg) as (_ & Hc & Hl). simpl in Hc, Hl.
  unfold Controller.added, Controller.deliver. rewrite E. simpl.
  exists ((Controller.clock w, Controller.Gate true)
            :: (Controller.clock w, Controller.TriggerReceived) :: l1),
         (Controller.clock w1 + (10 + Controller.oversleep e)).
  split; [done|]. split; [|done].
  intros t' ev H.
  apply elem_of_cons in H as [[= -> ->]|H]; [split; [lia|done]|].
  apply elem_of_cons in H as [[= -> ->]|H]; [split; [lia|done]|].
  destruct (Hl _ _ H) as [Ht Hg]. split; [lia|].
  intros ->. discriminate.
Qed.

(** ** The gate under interleaving *)

Section GateFacts.
Import Controller Gate.

Lemma gate_correct_implies_mutex s : gate_correct s -> mutual_exclusion s.
Proof.
  intros [Hone _] i j ci cj Hi Hj Hai Haj.
  apply (Hone i j ci cj); try done; unfold holding;
    rewrite ?Hai, ?Haj; apply orb_true_r.
Qed.

Lemma gate_correct_start w es : gate_correct (start w es).
Proof.
  split.
  - intros i j ci cj Hi _ Hh _. simpl in Hi.
    rewrite list_lookup_fmap in Hi.
    destruct (es !! i); [|done]. injection Hi as <-. done.
  - intros _ i c Hi. simpl in Hi.
    rewrite list_lookup_fmap in Hi.
    destruct (es !! i); [|done]. by injection Hi as <-.
Qed.

Lemma unbroken_spec i s :
  unbroken i s = true ->
  forall j c, calls s !! j = Some c -> at_flip c = true -> j = i.
Proof.
  unfold unbroken. rewrite forallb_forall. intros H j c Hj Hc.
  specialize (H (j, c)). simpl in H. rewrite Hc in H. simpl in H.
  rewrite orb_false_r in H. apply Nat.eqb_eq, H, list_elem_of_In.
  apply elem_of_lookup_imap. by exists j, c.
Qed.

(** How the calls look after invocation [i] has been replaced. *)
Lemma lookup_moved (cs : list call) i j (c c' cj : call) :
  cs !! i = Some c ->
  <[i := c']> cs !! j = Some cj ->
  (j = i /\ cj = c') \/ (j <> i /\ cs !! j = Some cj).
Proof.
  intros Hi Hj. destruct (decide (j = i)) as [->|Hne].
  - left. split; [done|].
    rewrite list_lookup_insert_eq in Hj by (by eapply lookup_lt_Some).
    congruence.
  - right. split; [done|]. by rewrite list_lookup_insert_ne in Hj.
Qed.

(** The invariant holds after a move that changes invocation [i] from [c]
    to [c'] and the flag to [f], provided the move respects the gate. *)
Lemma gate_correct_move s i c c' w' l :
  gate_correct s ->
  calls s !! i = Some c ->
  (holding c' = true -> holding c = false ->
     forall j cj, calls s !! j = Some cj -> j <> i -> holding cj = false) ->
  (is_processing w' = false -> admitted c' = false) ->
  (is_processing w' = false -> is_processing (shared s) = true ->
     forall j cj, calls s !! j = Some cj -> j <> i -> admitted cj = false) ->
  gate_correct {| shared := w'; printed := l;
                  calls := <[i := c']> (calls s) |}.
Proof.
  intros [Hone Hclear] Hi Hnew Hflag Hrel. split; simpl.
  - intros j k cj ck Hj Hk Hhj Hhk.
    destruct (lookup_moved _ _ _ _ _ _ Hi Hj) as [[-> ->]|[Hnej Hj']];
    destruct (lookup_moved _ _ _ _ _ _ Hi Hk) as [[-> ->]|[Hnek Hk']];
      try done.
    + destruct (holding c) eqn:Hc.
      * symmetry. by apply (Hone k i ck c).
      * rewrite (Hnew Hhj eq_refl k ck Hk' Hnek) in Hhk. done.
    + destruct (holding c) eqn:Hc.
      * by apply (Hone j i cj c).
      * rewrite (Hnew Hhk eq_refl j cj Hj' Hnej) in Hhj. done.
    + by apply (Hone j k cj ck).
  - intros Hw' j cj Hj.
    destruct (lookup_moved _ _ _ _ _ _ Hi Hj) as [[-> ->]|[Hnej Hj']];
      [by apply Hflag|].
    destruct (is_processing (shared s)) eqn:Hf; [by eapply Hrel|].
    by eapply Hclear.
Qed.

Lemma gate_correct_step i s :
  gate_correct s -> unbroken i s = true -> gate_correct (step i s).
Proof.
  intros Inv Hser. pose proof Inv as [Hone Hclear].
  pose proof (unbroken_spec i s Hser) as Hflip.
  unfold step. destruct (calls s !! i) as [c|] eqn:Hi; [|done].
  destruct c as [p e]. simpl. destruct p.
  - (* the check *)
    destruct (is_processing (shared s)) eqn:Hf.
    + apply (gate_correct_move s i _ _ _ _ Inv Hi); simpl; try done.
      congruence.
    + apply (gate_correct_move s i _ _ _ _ Inv Hi); simpl; try done.
      * intros _ _ j cj Hj Hne. unfold holding.
        rewrite (Hclear eq_refl j cj Hj), orb_false_r.
        destruct (at_flip cj) eqn:Hcj; [|done].
        by specialize (Hflip j cj Hj Hcj).
      * congruence.
  - (* the flip *)
    apply (gate_correct_move s i _ _ _ _ Inv Hi); simpl; done.
  - (* the stages *)
    destruct (guarded e (shared s)) as [[r w1] l1] eqn:Eg.
    destruct (orderly_guarded e _ _ _ _ Eg) as (Hkeep & _). simpl.
    apply (gate_correct_move s i _ _ _ _ Inv Hi); simpl; try done.
    + intros Hw1. rewrite Hkeep in Hw1.
      by specialize (Hclear Hw1 i _ Hi).
    + congruence.
  - (* the cooldown and the release *)
    apply (gate_correct_move s i _ _ _ _ Inv Hi); simpl; try done.
    intros _ _ j cj Hj Hne.
    destruct (admitted cj) eqn:Hcj; [|done].
    exfalso. apply Hne. apply (Hone j i cj _ Hj Hi); [|done].
    unfold holding. rewrite Hcj. apply orb_true_r.
  - done.
Qed.

Lemma gate_correct_exec schedule : forall s,
  gate_correct s -> serial schedule s = true ->
  gate_correct (exec schedule s).
Proof.
  induction schedule as [|i rest IH]; intros s Inv Hser; simpl; [done|].
  simpl in Hser. apply andb_true_iff in Hser as [Hi Hrest].
  apply IH; [by apply gate_correct_step|done].
Qed.

(** Run alone, the four moves of an invocation are [on_message]. *)
Lemma exec_alone e w :
  let s := exec [0; 0; 0; 0] (start w [e]) in
  shared s = deliver e w /\ printed s = added e w /\
  at_pc <$> calls s = [Returned].
Proof.
  unfold deliver, added. destruct (is_processing w) eqn:Hf.
  - rewrite (on_message_busy e w Hf). unfold start. cbn [exec].
    unfold step. simpl. rewrite Hf. simpl. done.
  - destruct (on_message_idle e w Hf) as (w1 & l1 & Eg & ->).
    unfold start. cbn [exec]. unfold step, bind. simpl. rewrite Hf. simpl.
    rewrite Eg. simpl. done.
Qed.
End GateFacts.

(** C1, as amended.  When no other invocation moves between an invocation's
    check of [is_processing] and its flip, as when the transport delivers
    one callback at a time, then whatever the deliveries and however their
    later steps interleave, no two invocations are admitted at once. *)
Theorem serial_deliveries_single_flight
    (w : Controller.world) (es : list Controller.env) (schedule : list nat) :
  Gate.serial schedule (Gate.start w es) = true ->
  mutual_exclusion (Gate.exec schedule (Gate.start w es)).
Proof.
  intros Hser. apply gate_correct_implies_mutex, gate_correct_exec; [|done].
  apply gate_correct_start.
Qed.

Lemma serial_deliveries_single_flight_witness :
  mutual_exclusion
    (Gate.exec [0; 0; 1; 0; 1; 0; 2; 2; 2]
               (Gate.start idle [cat_seen; db_down; camera_down])).
Proof.
  apply serial_deliveries_single_flight. vm_compute. reflexivity.
Defined.

(** C1 as stated fails: the check and the flip are two statements, and when
    a second invocation runs its check between the check and the flip of a
    first, both find the flag clear and both are admitted. *)
Lemma interleaved_checks_admit_two :
  let s := Gate.exec [0; 1; 0; 1] (Gate.start idle [cat_seen; cat_seen]) in
  Gate.admitted <$> Gate.calls s = [true; true] /\ ~ mutual_exclusion s.
Proof.
  split; [reflexivity|].
  intros H.
  specialize (H 0 1 (Gate.Call Gate.InTry cat_seen)
                (Gate.Call Gate.InTry cat_seen)
                eq_refl eq_refl eq_refl eq_refl).
  discriminate.
Qed.

(** ** One delivery, stage by stage *)

Section RunFacts.
Import Controller.

Lemma count_app p l1 l2 : count p (l1 ++ l2) = count p l1 + count p l2.
Proof.
  induction l1 as [|[t ev] l1 IH]; simpl; [done|]. rewrite IH. lia.
Qed.

Variable e : env.

Lemma record_video_none base w :
  fst (fst (record_video e base w)) = Val None <-> capture_fails e.
Proof.
  unfold capture_fails, record_video, run, try_except, bind, emit, tick,
    ret, raise. simpl.
  oracle e; split; try done; intros H; try (split; auto; fail);
    destruct H as [? [?|?]]; done.
Qed.

Lemma extract_frame_none video_path frame_path w :
  fst (fst (extract_frame e video_path frame_path w)) = Val None
  <-> extract_fails e.
Proof.
  unfold extract_fails, extract_frame, run, try_except, bind, emit, tick,
    ret, raise. simpl.
  oracle e; split; done.
Qed.

(** [save_to_db] and [send_notification] return whatever happens inside
    them. *)
Lemma save_to_db_returns data w :
  fst (fst (save_to_db e data w)) = Val tt.
Proof. unfold_stages. simpl. by oracle e. Qed.

Lemma send_notification_returns result frame_path w :
  fst (fst (send_notification e result frame_path w)) = Val tt /\
  count is_post (snd (send_notification e result frame_path w)) = 1.
Proof. unfold_stages. simpl. by oracle e. Qed.

(** A run whose capture or extraction fails stops there. *)
Lemma guarded_abort w :
  capture_fails e \/ extract_fails e ->
  exists w' l, guarded e w = (Val tt, w', l) /\
    captures w' = captures w /\ count is_save l = 0.
Proof.
  intros H. unfold_stages. simpl.
  destruct (payload e) as [x|j]; simpl; [by eexists _, _|].
  destruct H as [[Hm [Hr|Hc]]|Hx]; unfold extract_fails in *; oracle e;
    try (by eexists _, _); destruct j; simpl; oracle e; by eexists _, _.
Qed.

(** A run with a dict as payload, once classified, goes through the
    remaining stages whatever the database and ntfy.sh do. *)
Lemma guarded_complete w m :
  payload e = inr (JObj m) -> classified e ->
  let d := scan (names e) (results e) in
  exists w' l, guarded e w = (Val tt, w', l) /\
    captures w' =
      (if succeeds e SqliteInsert
       then captures w ++ [row_of (captures w) (db_data_of e w m)]
       else captures w) /\
    (classified_at e w, Ran YoloPredict true) ∈ l /\
    (classified_at e w, SavingToDatabase (db_data_of e w m)) ∈ l /\
    count is_save l = 1 /\
    count is_notify l = (if is_animal d then 1 else 0) /\
    count is_post l = (if is_animal d then 1 else 0) /\
    (exists t, (t, Ran SqliteInsert (succeeds e SqliteInsert)) ∈ l) /\
    (exists t, (t, TaskComplete) ∈ l).
Proof.
  intros Hp (Hm & Hr & Hc & Hx & Hy) d. unfold_stages. rewrite Hp. simpl.
  oracle e; fold d; destruct (is_animal d) eqn:Ed; simpl; oracle e;
    eexists _, _; (split; [reflexivity|]); simpl;
    repeat split; try (here; fail); eexists; here.
Qed.

(** A payload that fails to parse stops the run at once. *)
Lemma guarded_malformed w x :
  payload e = inl x ->
  guarded e w = (Val tt, w, [(clock w, ErrorInOnMessage x)]).
Proof. intros Hp. unfold_stages. by rewrite Hp. Qed.

(** Whatever happens, a notification is sent at most once, and only for
    an animal. *)
Lemma guarded_notifies_only_animals w w' l r :
  guarded e w = (r, w', l) ->
  count is_notify l <= 1 /\
  (count is_notify l = 1 ->
   is_animal (scan (names e) (results e)) = true).
Proof.
  unfold_stages. simpl.
  destruct (payload e) as [x|j]; simpl.
  { intros [= <- <- <-]. simpl. split; [lia|done]. }
  oracle e; try (intros [= <- <- <-]; simpl; split; [lia|done]);
    destruct j; simpl;
    try (intros [= <- <- <-]; simpl; split; [lia|done]);
    oracle e;
    destruct (is_animal (scan (names e) (results e))) eqn:Ed; simpl;
    oracle e; intros [= <- <- <-]; simpl; split; (lia || done).
Qed.
End RunFacts.

(** C2, as amended.  A trigger whose payload fails to parse runs no stage:
    nothing is recorded, written or notified.  When it finds the gate idle
    it still sets [is_processing], sleeps the 10 seconds of the cooldown and
    then clears the flag; when it finds the gate busy it is dropped with no
    change of state and no delay. *)
Theorem malformed_trigger_runs_no_stage
    (e : Controller.env) (w : Controller.world) (x : exn) :
  Controller.payload e = inl x ->
  (Controller.is_processing w = false ->
   Controller.on_message e w =
     (Controller.Val tt,
      {| Controller.is_processing := false;
         Controller.captures := Controller.captures w;
         Controller.clock :=
           Controller.clock w + (10 + Controller.oversleep e) |},
      [(Controller.clock w, Controller.Gate true);
       (Controller.clock w, Controller.TriggerReceived);
       (Controller.clock w, Controller.ErrorInOnMessage x);
       (Controller.clock w + (10 + Controller.oversleep e),
        Controller.Slept 10);
       (Controller.clock w + (10 + Controller.oversleep e),
        Controller.Gate false)])) /\
  (Controller.is_processing w = true ->
   Controller.on_message e w =
     (Controller.Val tt, w, [(Controller.clock w, Controller.BusyIgnored)])).
Proof.
  intros Hp. split; intros Hf; [|by apply on_message_busy].
  destruct (on_message_idle e w Hf) as (w1 & l1 & Eg & ->).
  rewrite (guarded_malformed e _ x Hp) in Eg. by injection Eg as <- <-.
Qed.

Lemma malformed_trigger_runs_no_stage_witness :
  Controller.on_message malformed idle =
    (Controller.Val tt,
     {| Controller.is_processing := false;
        Controller.captures := [];
        Controller.clock := 110 |},
     [(100, Controller.Gate true);
      (100, Controller.TriggerReceived);
      (100, Controller.ErrorInOnMessage JSONDecodeError);
      (110, Controller.Slept 10);
      (110, Controller.Gate false)]).
Proof.
  apply (proj1 (malformed_trigger_runs_no_stage malformed idle JSONDecodeError
                  eq_refl)).
  reflexivity.
Defined.

(** C2 as stated fails: for a payload that is not JSON, delivered while the
    gate is idle, the flag is set, and the call returns only after the 10
    seconds of the cooldown. *)
Lemma malformed_trigger_engages_gate_and_cooldown :
  Controller.payload malformed = inl JSONDecodeError /\
  (100, Controller.Gate true) ∈ Controller.added malformed idle /\
  (110, Controller.Slept 10) ∈ Controller.added malformed idle /\
  Controller.clock (Controller.deliver malformed idle)
    = Controller.clock idle + 10.
Proof. repeat split; vm_compute; here. Qed.

(** C3.  A run admitted by the gate in which [record_video] or
    [extract_frame] returns no handle writes no row: [save_to_db] is never
    entered and the table is as before; the run then sleeps the cooldown
    and clears the flag. *)
Theorem failed_capture_or_extract_writes_nothing
    (e : Controller.env) (w : Controller.world) :
  Controller.is_processing w = false ->
  capture_fails e \/ extract_fails e ->
  Controller.captures (Controller.deliver e w) = Controller.captures w /\
  count is_save (Controller.added e w) = 0 /\
  exists pre t,
    Controller.added e w =
      pre ++ [(t, Controller.Slept 10); (t, Controller.Gate false)].
Proof.
  intros Hf Hfail.
  destruct (on_message_idle e w Hf) as (w1 & l1 & Eg & E).
  destruct (guarded_abort e
              {| Controller.is_processing := true;
                 Controller.captures := Controller.captures w;
                 Controller.clock := Controller.clock w |} Hfail)
    as (w' & l & Eg' & Hc & Hs).
  rewrite Eg in Eg'. injection Eg' as <- <-.
  unfold Controller.deliver, Controller.added. rewrite E. simpl.
  split; [done|]. split.
  - rewrite count_app, Hs. reflexivity.
  - by exists ((Controller.clock w, Controller.Gate true)
                 :: (Controller.clock w, Controller.TriggerReceived) :: l1),
              (Controller.clock w1 + (10 + Controller.oversleep e)).
Qed.

Lemma failed_capture_or_extract_writes_nothing_witness :
  Controller.captures (Controller.deliver camera_down idle) = [] /\
  count is_save (Controller.added camera_down idle) = 0 /\
  exists pre t,
    Controller.added camera_down idle =
      pre ++ [(t, Controller.Slept 10); (t, Controller.Gate false)].
Proof.
  apply (failed_capture_or_extract_writes_nothing camera_down idle).
  - reflexivity.
  - left. split; [reflexivity|]. left. reflexivity.
Defined.

(** C4, as amended.  A run admitted by the gate whose payload is a JSON
    object and in which capture, extraction and classification complete
    enters [save_to_db] exactly once, with a timestamp formatted from the
    clock reading at which classification returned, not the reading at
    which the trigger arrived; when the database write succeeds exactly
    that one row is appended to the table, and when it fails none is. *)
Theorem completed_run_saves_once
    (e : Controller.env) (w : Controller.world) (m : gmap string json) :
  Controller.is_processing w = false ->
  Controller.payload e = inr (JObj m) ->
  classified e ->
  count is_save (Controller.added e w) = 1 /\
  (classified_at e w, Controller.Ran Controller.YoloPredict true)
    ∈ Controller.added e w /\
  (classified_at e w, Controller.SavingToDatabase (db_data_of e w m))
    ∈ Controller.added e w /\
  Controller.DbData.timestamp (db_data_of e w m)
    = Controller.strftime e "%Y-%m-%d %H:%M:%S" (classified_at e w) /\
  Controller.clock w <= classified_at e w /\
  Controller.captures (Controller.deliver e w) =
    (if Controller.succeeds e Controller.SqliteInsert
     then Controller.captures w
          ++ [Controller.row_of (Controller.captures w) (db_data_of e w m)]
     else Controller.captures w).
Proof.
  intros Hf Hp Hc.
  destruct (on_message_idle e w Hf) as (w1 & l1 & Eg & E).
  destruct (guarded_complete e
              {| Controller.is_processing := true;
                 Controller.captures := Controller.captures w;
                 Controller.clock := Controller.clock w |} m Hp Hc)
    as (w' & l & Eg' & Hcap & Hy & Hsave & Hn & _).
  rewrite Eg in Eg'. injection Eg' as <- <-.
  unfold Controller.deliver, Controller.added. rewrite E. simpl.
  repeat split.
  - rewrite count_app, Hn. reflexivity.
  - do 2 apply list_elem_of_further. apply elem_of_app. by left.
  - do 2 apply list_elem_of_further. apply elem_of_app. by left.
  - unfold classified_at. lia.
  - exact Hcap.
Qed.

Lemma completed_run_saves_once_witness :
  count is_save (Controller.added cat_seen idle) = 1 /\
  Captures.classification
    <$> Controller.captures (Controller.deliver cat_seen idle) = ["Cat"] /\
  Controller.captures (Controller.deliver db_down idle) = [].
Proof.
  pose proof (completed_run_saves_once cat_seen idle _ eq_refl eq_refl) as H.
  pose proof (completed_run_saves_once db_down idle _ eq_refl eq_refl) as H'.
  assert (Hc : classified cat_seen) by (repeat split).
  assert (Hc' : classified db_down) by (repeat split).
  destruct (H Hc) as (H1 & _ & _ & _ & _ & H6).
  destruct (H' Hc') as (_ & _ & _ & _ & _ & H6').
  split; [exact H1|]. split; [rewrite H6; reflexivity|exact H6'].
Defined.

(** C4 as stated fails: with capture, extraction and classification all
    complete, no row is inserted when the database write fails, and none
    when the payload is the JSON number 5. *)
Lemma completed_run_without_row :
  (classified db_down /\
   Controller.captures (Controller.deliver db_down idle) = []) /\
  (classified not_an_object /\
   (106, Controller.Ran Controller.YoloPredict true)
     ∈ Controller.added not_an_object idle /\
   Controller.captures (Controller.deliver not_an_object idle) = []).
Proof. repeat split; vm_compute; here. Qed.

(** The notification follows the classification when the payload is a
    JSON object: sent once for an animal, not at all otherwise. *)
Lemma notification_iff_animal_for_dict
    (e : Controller.env) (w : Controller.world) (m : gmap string json) :
  Controller.is_processing w = false ->
  Controller.payload e = inr (JObj m) ->
  classified e ->
  count is_notify (Controller.added e w) =
    (if Controller.is_animal
          (Controller.scan (Controller.names e) (Controller.results e))
     then 1 else 0).
Proof.
  intros Hf Hp Hc.
  destruct (on_message_idle e w Hf) as (w1 & l1 & Eg & E).
  destruct (guarded_complete e
              {| Controller.is_processing := true;
                 Controller.captures := Controller.captures w;
                 Controller.clock := Controller.clock w |} m Hp Hc)
    as (w' & l & Eg' & _ & _ & _ & _ & Hn & _).
  rewrite Eg in Eg'. injection Eg' as <- <-.
  unfold Controller.added. rewrite E. simpl.
  rewrite count_app, Hn. simpl. lia.
Qed.

(** Whatever the payload and the outside world, a delivery notifies at
    most once, and only for an animal. *)
Lemma notification_only_for_animals
    (e : Controller.env) (w : Controller.world) :
  Controller.is_processing w = false ->
  count is_notify (Controller.added e w) <= 1 /\
  (count is_notify (Controller.added e w) = 1 ->
   Controller.is_animal
     (Controller.scan (Controller.names e) (Controller.results e)) = true).
Proof.
  intros Hf.
  destruct (on_message_idle e w Hf) as (w1 & l1 & Eg & E).
  destruct (guarded_notifies_only_animals e _ _ _ _ Eg) as [Hle Hone].
  unfold Controller.added. rewrite E. simpl.
  rewrite count_app. simpl. rewrite Nat.add_0_r. done.
Qed.

(** C6, evaluated where it fails.  The payload is the JSON number 5 and a
    cat is in the frame: capture, extraction and classification complete
    and the result is an animal, then building [db_data] raises
    [AttributeError], and neither [save_to_db] nor [send_notification] is
    entered. *)
Lemma animal_classified_but_not_notified :
  classified not_an_object /\
  Controller.scan (Controller.names not_an_object)
                  (Controller.results not_an_object)
    = Controller.Detection true "Cat" 0.9 /\
  (106, Controller.Ran Controller.YoloPredict true)
    ∈ Controller.added not_an_object idle /\
  (106, Controller.ErrorInOnMessage AttributeError)
    ∈ Controller.added not_an_object idle /\
  count is_notify (Controller.added not_an_object idle) = 0 /\
  count is_save (Controller.added not_an_object idle) = 0.
Proof. repeat split; vm_compute; here. Qed.

(** C7.  In a run that reaches the persist stage with an animal in the
    frame, whether the database write and the post to ntfy.sh succeed or
    fail: [save_to_db] and [send_notification] return normally, the
    notification is entered once and the post attempted once, the stage
    sequence runs to its end, and [on_message] returns normally. *)
Theorem persist_and_notify_are_best_effort
    (e : Controller.env) (w : Controller.world) (m : gmap string json) :
  Controller.is_processing w = false ->
  Controller.payload e = inr (JObj m) ->
  classified e ->
  Controller.is_animal
    (Controller.scan (Controller.names e) (Controller.results e)) = true ->
  fst (fst (Controller.on_message e w)) = Controller.Val tt /\
  (exists t,
     (t, Controller.Ran Controller.SqliteInsert
           (Controller.succeeds e Controller.SqliteInsert))
       ∈ Controller.added e w) /\
  count is_notify (Controller.added e w) = 1 /\
  count is_post (Controller.added e w) = 1 /\
  (exists t, (t, Controller.TaskComplete) ∈ Controller.added e w) /\
  (forall d w0, fst (fst (Controller.save_to_db e d w0)) = Controller.Val tt) /\
  (forall r f w0,
     fst (fst (Controller.send_notification e r f w0)) = Controller.Val tt).
Proof.
  intros Hf Hp Hc Ha.
  destruct (on_message_idle e w Hf) as (w1 & l1 & Eg & E).
  destruct (guarded_complete e
              {| Controller.is_processing := true;
                 Controller.captures := Controller.captures w;
                 Controller.clock := Controller.clock w |} m Hp Hc)
    as (w' & l & Eg' & _ & _ & _ & _ & Hn & Hpo & [ti Hi] & [tc Hcpl]).
  rewrite Eg in Eg'. injection Eg' as <- <-. rewrite Ha in Hn, Hpo.
  unfold Controller.added. rewrite E. simpl.
  split; [done|]. split; [|split; [|split; [|split; [|split]]]].
  - exists ti. do 2 apply list_elem_of_further. apply elem_of_app. by left.
  - rewrite count_app, Hn. reflexivity.
  - rewrite count_app, Hpo. reflexivity.
  - exists tc. do 2 apply list_elem_of_further. apply elem_of_app. by left.
  - intros d w0. apply save_to_db_returns.
  - intros r f w0. apply send_notification_returns.
Qed.

Lemma persist_and_notify_are_best_effort_witness :
  Controller.succeeds offline Controller.SqliteInsert = false /\
  Controller.succeeds offline Controller.NtfyPost = false /\
  fst (fst (Controller.on_message offline idle)) = Controller.Val tt /\
  count is_notify (Controller.added offline idle) = 1 /\
  count is_post (Controller.added offline idle) = 1.
Proof.
  assert (Hc : classified offline) by (repeat split).
  destruct (persist_and_notify_are_best_effort offline idle _
              eq_refl eq_refl Hc eq_refl) as (H1 & _ & H3 & H4 & _).
  repeat split; assumption.
Defined.

(** ** The dashboard *)

Section DashboardFacts.
Import Dashboard.

#[local] Instance id_desc_trans : Transitive id_desc.
Proof. intros a b c. unfold id_desc. lia. Qed.

#[local] Instance id_desc_total : Total id_desc.
Proof. intros a b. unfold id_desc. lia. Qed.

Lemma columns_process (l : list Captures.row) :
  columns <$> (process <$> l) = l.
Proof.
  induction l as [|r l IH]; [done|]. by rewrite !fmap_cons, IH.
Qed.

(** With distinct ids, descending is strictly descending. *)
Lemma strictly_descending (l : list Captures.row) :
  NoDup (Captures.id <$> l) ->
  StronglySorted id_desc l ->
  StronglySorted (fun a b => Captures.id b < Captures.id a) l.
Proof.
  induction l as [|r l IH]; intros Hnd Hs; [constructor|].
  simpl in Hnd. apply NoDup_cons in Hnd as [Hr Hnd].
  apply StronglySorted_inv in Hs as [Hs Hall].
  constructor; [by apply IH|].
  rewrite Forall_forall in Hall |- *. intros b Hb.
  specialize (Hall b Hb). unfold id_desc in Hall.
  assert (Captures.id b <> Captures.id r); [|lia].
  intros Heq. apply Hr. rewrite <- Heq.
  apply list_elem_of_fmap. by exists b.
Qed.
(** C9.  For every table with distinct ids, the route [/] hands the
    template all the rows of the table, each row once, none filtered out
    whatever its classification, ordered by strictly descending id. *)
Theorem listing_all_rows_by_id_descending (table : list Captures.row) :
  NoDup (Captures.id <$> table) ->
  exists listing,
    Dashboard.index (Some table) = inr listing /\
    Dashboard.columns <$> listing ≡ₚ table /\
    StronglySorted (fun a b => Captures.id b < Captures.id a)
                   (Dashboard.columns <$> listing) /\
    (forall r, r ∈ table -> r ∈ Dashboard.columns <$> listing).
Proof.
  intros Hnd. eexists. split; [reflexivity|].
  rewrite columns_process. unfold Dashboard.select_all.
  pose proof (merge_sort_Permutation Dashboard.id_desc table) as Hperm.
  split; [done|]. split.
  - apply strictly_descending.
    + by rewrite Hperm.
    + apply (StronglySorted_merge_sort _).
  - intros r Hr. by rewrite Hperm.
Qed.

End DashboardFacts.

Lemma cooldown_precedes_release_witness :
  exists pre t,
    Controller.added camera_down idle =
      pre ++ [(t, Controller.Slept 10); (t, Controller.Gate false)] /\
    (forall t' ev, (t', ev) ∈ pre ->
       t' + 10 <= t /\ ev <> Controller.Gate false) /\
    Controller.is_processing (Controller.deliver camera_down idle) = false /\
    Controller.clock (Controller.deliver camera_down idle) = t.
Proof. apply (cooldown_precedes_release camera_down idle). reflexivity. Defined.

Lemma listing_all_rows_by_id_descending_witness :
  exists listing,
    Dashboard.index (Some history) = inr listing /\
    Dashboard.columns <$> listing ≡ₚ history /\
    StronglySorted (fun a b => Captures.id b < Captures.id a)
                   (Dashboard.columns <$> listing) /\
    (forall r, r ∈ history -> r ∈ Dashboard.columns <$> listing).
Proof.
  apply (listing_all_rows_by_id_descending history).
  apply (bool_decide_unpack _). vm_compute. exact I.
Defined.

Example listing_of_history :
  Dashboard.index (Some history) =
    inr [Dashboard.Capture (logged 3 "Dog" None) None;
         Dashboard.Capture
           (logged 2 "False Positive" (Some "/home/param/captures/vid_b.mp4"))
           (Some "vid_b.mp4");
         Dashboard.Capture
           (logged 1 "Cat" (Some "/home/param/captures/vid_a.mp4"))
           (Some "vid_a.mp4")].
Proof. reflexivity. Qed.

(** * Further properties of the controller *)

Section MoreRunFacts.
Import Controller.
Variable e : env.

(** What the guarded stages do to the table. *)
Lemma guarded_captures w r w' l :
  guarded e w = (r, w', l) ->
  if reaches_save e && succeeds e SqliteInsert
  then exists d, captures w' = captures w ++ [row_of (captures w) d]
  else captures w' = captures w.
Proof.
  unfold reaches_save, captured, is_dict. unfold_stages. simpl.
  destruct (payload e) as [x|j]; simpl.
  { intros [= <- <- <-]. done. }
  destruct j; simpl; oracle e;
    try (destruct (is_animal (scan (names e) (results e))); simpl; oracle e);
    intros [= <- <- <-]; simpl; try done; by eexists.
Qed.

Lemma deliver_captures w :
  if negb (is_processing w) && reaches_save e && succeeds e SqliteInsert
  then exists d,
    captures (deliver e w) = captures w ++ [row_of (captures w) d]
  else captures (deliver e w) = captures w.
Proof.
  unfold deliver. destruct (is_processing w) eqn:Hf; simpl.
  - by rewrite (on_message_busy e w Hf).
  - destruct (on_message_idle e w Hf) as (w1 & l1 & Eg & ->). simpl.
    apply (guarded_captures _ _ _ _ Eg).
Qed.
End MoreRunFacts.

(** X1.  No exception leaves [on_message]: whatever the payload, the state
    and the outcomes of the external calls, the callback returns
    normally. *)
Theorem on_message_never_raises (e : Controller.env) (w : Controller.world) :
  fst (fst (Controller.on_message e w)) = Controller.Val tt.
Proof.
  destruct (Controller.is_processing w) eqn:Hf.
  - by rewrite (on_message_busy e w Hf).
  - by destruct (on_message_idle e w Hf) as (w1 & l1 & _ & ->).
Qed.

(** X2.  A delivery never changes or removes a row of the table, and it
    appends one row exactly when the gate was idle, the payload is a dict,
    capture, extraction and classification succeed and the INSERT goes
    through; the new row then carries the next id. *)
Theorem row_written_iff (e : Controller.env) (w : Controller.world) :
  (exists rows,
     Controller.captures (Controller.deliver e w)
       = Controller.captures w ++ rows /\ length rows <= 1) /\
  (length (Controller.captures (Controller.deliver e w))
     = S (length (Controller.captures w)) <->
   Controller.is_processing w = false /\
   reaches_save e = true /\
   Controller.succeeds e Controller.SqliteInsert = true) /\
  (forall r rows,
     Controller.captures (Controller.deliver e w)
       = Controller.captures w ++ r :: rows ->
     Captures.id r = Captures.next_id (Controller.captures w)).
Proof.
  pose proof (deliver_captures e w) as H.
  destruct (negb (Controller.is_processing w) && reaches_save e
            && Controller.succeeds e Controller.SqliteInsert) eqn:Hb.
  - destruct H as [d ->].
    apply andb_true_iff in Hb as [Hb Hi].
    apply andb_true_iff in Hb as [Hf Hr]. apply negb_true_iff in Hf.
    split; [eexists [_]; split; [done|simpl; lia]|]. split.
    + rewrite length_app. simpl. split; [done|lia].
    + intros r rows Hrows. apply app_inv_head in Hrows.
      by inversion Hrows.
  - rewrite H. split.
    { exists []. split; [by rewrite app_nil_r|simpl; lia]. }
    split.
    + split; [lia|]. intros (Hf & Hr & Hi). by rewrite Hf, Hr, Hi in Hb.
    + intros r rows Hrows.
      rewrite <- (app_nil_r (Controller.captures w)) in Hrows at 1.
      by apply app_inv_head in Hrows.
Qed.

Lemma next_id_fresh (t : list Captures.row) (r : Captures.row) :
  r ∈ t -> Captures.id r < Captures.next_id t.
Proof.
  unfold Captures.next_id. induction t as [|x t IH]; intros Hr.
  - by apply elem_of_nil in Hr.
  - rewrite fmap_cons. simpl.
    apply elem_of_cons in Hr as [->|Hr]; [lia|]. specialize (IH Hr). lia.
Qed.

Lemma distinct_ids_insert (t : list Captures.row) (d : Controller.DbData.t) :
  NoDup (Captures.id <$> t) ->
  NoDup (Captures.id <$> (t ++ [Controller.row_of t d])).
Proof.
  intros Hnd. rewrite fmap_app. apply NoDup_app. split; [done|]. split.
  - intros i Hi Hi'. simpl in Hi'. apply list_elem_of_singleton in Hi'.
    apply list_elem_of_fmap in Hi as (r & -> & Hr).
    apply next_id_fresh in Hr. simpl in Hi'. lia.
  - simpl. apply NoDup_singleton.
Qed.

Lemma distinct_ids_deliver (e : Controller.env) (w : Controller.world) :
  NoDup (Captures.id <$> Controller.captures w) ->
  NoDup (Captures.id <$> Controller.captures (Controller.deliver e w)) /\
  Controller.captures w `prefix_of`
    Controller.captures (Controller.deliver e w).
Proof.
  intros Hnd. pose proof (deliver_captures e w) as H.
  destruct (negb (Controller.is_processing w) && reaches_save e
            && Controller.succeeds e Controller.SqliteInsert).
  - destruct H as [d ->]. split; [by apply distinct_ids_insert|].
    by apply prefix_app_r.
  - by rewrite H.
Qed.

(** X3.  Over any sequence of deliveries, one after the other, the table is
    only extended at its end and the ids of its rows stay distinct: the
    rows it had are still there, unchanged and in place. *)
Theorem primary_keys_stay_distinct
    (es : list Controller.env) (w : Controller.world) :
  NoDup (Captures.id <$> Controller.captures w) ->
  NoDup (Captures.id <$> Controller.captures (fst (Startup.dispatch es w))) /\
  Controller.captures w `prefix_of`
    Controller.captures (fst (Startup.dispatch es w)).
Proof.
  revert w. induction es as [|e es IH]; intros w Hnd; simpl; [done|].
  destruct (distinct_ids_deliver e w Hnd) as [Hnd' Hpre].
  specialize (IH (Controller.deliver e w) Hnd').
  destruct (Startup.dispatch es (Controller.deliver e w)) as [w'' l].
  simpl in *. destruct IH as [IH1 IH2]. split; [done|].
  by etrans.
Qed.

Lemma primary_keys_stay_distinct_witness :
  NoDup (Captures.id <$>
         Controller.captures
           (fst (Startup.dispatch [cat_seen; db_down; cat_seen] idle))) /\
  Controller.captures idle `prefix_of`
    Controller.captures
      (fst (Startup.dispatch [cat_seen; db_down; cat_seen] idle)).
Proof.
  apply (primary_keys_stay_distinct [cat_seen; db_down; cat_seen] idle).
  simpl. apply NoDup_nil_2.
Defined.

Section LoopFacts.
Import Controller.

(** The stages never print the busy message and never touch the flag. *)
Lemma guarded_not_busy (e : env) w r w' l :
  guarded e w = (r, w', l) ->
  count is_busy l = 0 /\ count is_admission l = 0.
Proof.
  unfold_stages. simpl.
  destruct (payload e) as [x|j]; simpl.
  { intros [= <- <- <-]. done. }
  destruct j; simpl; oracle e;
    try (destruct (is_animal (scan (names e) (results e))); simpl; oracle e);
    by intros [= <- <- <-].
Qed.

(** A delivery that finds the gate idle is admitted, not ignored; it leaves
    the gate idle, at least 10 seconds later. *)
Lemma deliver_idle (e : env) (w : world) :
  is_processing w = false ->
  count is_busy (added e w) = 0 /\
  count is_admission (added e w) = 1 /\
  is_processing (deliver e w) = false /\
  clock w + 10 <= clock (deliver e w).
Proof.
  intros Hf. destruct (on_message_idle e w Hf) as (w1 & l1 & Eg & E).
  destruct (orderly_guarded e _ _ _ _ Eg) as (_ & Hc & _). simpl in Hc.
  destruct (guarded_not_busy e _ _ _ _ Eg) as [Hb Ha].
  unfold added, deliver. rewrite E. simpl.
  rewrite !count_app, Hb, Ha. simpl. repeat split; lia.
Qed.
End LoopFacts.

(** X4.  When the callbacks are delivered one after the other, each
    returning before the next is called, as [loop_forever] does, and the
    gate is idle at the start: no trigger is ever ignored as busy, every
    trigger is admitted, the gate is idle again at the end, and the
    deliveries take at least 10 seconds each. *)
Theorem serial_callbacks_never_busy
    (es : list Controller.env) (w : Controller.world) :
  Controller.is_processing w = false ->
  count is_busy (snd (Startup.dispatch es w)) = 0 /\
  count is_admission (snd (Startup.dispatch es w)) = length es /\
  Controller.is_processing (fst (Startup.dispatch es w)) = false /\
  Controller.clock w + 10 * length es
    <= Controller.clock (fst (Startup.dispatch es w)).
Proof.
  revert w. induction es as [|e es IH]; intros w Hf; simpl.
  { repeat split; (done || lia). }
  destruct (deliver_idle e w Hf) as (Hb & Ha & Hf' & Hc).
  specialize (IH (Controller.deliver e w) Hf').
  destruct (Startup.dispatch es (Controller.deliver e w)) as [w'' l].
  simpl in *. destruct IH as (IHb & IHa & IHf & IHc).
  rewrite !count_app, Hb, Ha, IHb, IHa. repeat split; (done || lia).
Qed.

Lemma serial_callbacks_never_busy_witness :
  count is_busy
    (snd (Startup.dispatch [cat_seen; malformed; camera_down] idle)) = 0 /\
  count is_admission
    (snd (Startup.dispatch [cat_seen; malformed; camera_down] idle)) = 3 /\
  Controller.is_processing
    (fst (Startup.dispatch [cat_seen; malformed; camera_down] idle)) = false /\
  Controller.clock idle + 10 * 3
    <= Controller.clock
         (fst (Startup.dispatch [cat_seen; malformed; camera_down] idle)).
Proof.
  apply (serial_callbacks_never_busy [cat_seen; malformed; camera_down] idle).
  reflexivity.
Defined.

Section OrderFacts.
Import Controller.

Lemma calls_of_app l1 l2 : calls_of (l1 ++ l2) = calls_of l1 ++ calls_of l2.
Proof.
  induction l1 as [|[t ev] l1 IH]; simpl; [done|].
  destruct ev; simpl; by rewrite ?IH.
Qed.

(** Go through the entries of a log that is written out. *)
Ltac each_entry H :=
  repeat (apply elem_of_cons in H as [H|H];
          [simplify_eq; first [reflexivity | discriminate]|]);
  by apply elem_of_nil in H.

Lemma guarded_calls (e : env) w r w' l :
  guarded e w = (r, w', l) ->
  calls_of l `sublist_of` pipeline_order /\
  (forall t o, (t, Ran o false) ∈ l -> vital o = true ->
               last (calls_of l) = Some o).
Proof.
  unfold pipeline_order. unfold_stages. simpl.
  destruct (payload e) as [x|j]; simpl.
  { intros [= <- <- <-]. split; [apply sublist_nil_l|].
    intros t o H. each_entry H. }
  destruct j; simpl; oracle e;
    try (destruct (is_animal (scan (names e) (results e))); simpl; oracle e);
    intros [= <- <- <-]; simpl;
    (split;
     [repeat first [apply sublist_nil | apply sublist_skip | apply sublist_cons]
     |intros t o H Hv; each_entry H]).
Qed.
End OrderFacts.

(** X5.  In every delivery the external calls are made in the order of the
    program text (make the directory, record, convert, remove the raw
    file, extract the frame, run the model, insert, post), each at most
    once, some possibly left out; and when a call other than the clean-up,
    the INSERT or the post fails, no further call is made. *)
Theorem calls_in_pipeline_order (e : Controller.env) (w : Controller.world) :
  calls_of (Controller.added e w) `sublist_of` pipeline_order /\
  (forall t o,
     (t, Controller.Ran o false) ∈ Controller.added e w ->
     vital o = true ->
     last (calls_of (Controller.added e w)) = Some o).
Proof.
  unfold Controller.added.
  destruct (Controller.is_processing w) eqn:Hf.
  - rewrite (on_message_busy e w Hf). simpl. split; [apply sublist_nil_l|].
    intros t o H. apply list_elem_of_singleton in H. discriminate.
  - destruct (on_message_idle e w Hf) as (w1 & l1 & Eg & ->). simpl.
    destruct (guarded_calls e _ _ _ _ Eg) as [Hsub Hlast].
    rewrite calls_of_app. simpl. rewrite app_nil_r. split; [done|].
    intros t o H Hv. apply (Hlast t); [|done].
    apply elem_of_cons in H as [H|H]; [discriminate|].
    apply elem_of_cons in H as [H|H]; [discriminate|].
    apply elem_of_app in H as [H|H]; [done|].
    apply elem_of_cons in H as [H|H]; [discriminate|].
    apply list_elem_of_singleton in H. discriminate.
Qed.


Section EndingFacts.
Import Controller.

Lemma guarded_endings (e : env) w r w' l :
  guarded e w = (r, w', l) ->
  count is_complete l = (if reaches_save e then 1 else 0) /\
  count is_error l = (if stage_raises e then 1 else 0).
Proof.
  unfold reaches_save, stage_raises, captured, is_dict. unfold_stages. simpl.
  destruct (payload e) as [x|j]; simpl.
  { by intros [= <- <- <-]. }
  destruct j; simpl; oracle e;
    try (destruct (is_animal (scan (names e) (results e))); simpl; oracle e);
    by intros [= <- <- <-].
Qed.

(** What a completed run with a dict as payload notifies and stores. *)
Lemma guarded_agree (e : env) w m :
  payload e = inr (JObj m) -> classified e ->
  let d := scan (names e) (results e) in
  exists w' l, guarded e w = (Val tt, w', l) /\
    (is_animal d = true -> exists t, (t, SendingNotification d) ∈ l) /\
    (forall t d', (t, SendingNotification d') ∈ l -> d' = d).
Proof.
  intros Hp (Hm & Hr & Hc & Hx & Hy) d. unfold_stages. rewrite Hp. simpl.
  oracle e; fold d; destruct (is_animal d) eqn:Ed; simpl; oracle e;
    eexists _, _; (split; [reflexivity|]); simpl;
    (split; [intros; try done; eexists; here|]);
    intros t d' H;
    repeat (apply elem_of_cons in H as [H|H]; [by simplify_eq|]);
    by apply elem_of_nil in H.
Qed.
End EndingFacts.

(** X7.  A delivery that finds the gate idle ends in exactly one of three
    ways.  It prints TASK COMPLETE exactly when the payload is a dict and
    capture, extraction and classification succeed, whatever the INSERT and
    the post do.  It prints the error of [on_message] exactly when the
    payload does not parse, the capture directory cannot be made, the
    model fails, or the payload is not a dict when [db_data] is built.
    Otherwise, when recording, conversion or extraction fails, it returns
    early and prints neither. *)
Theorem run_ends_one_way (e : Controller.env) (w : Controller.world) :
  Controller.is_processing w = false ->
  count is_complete (Controller.added e w)
    = (if reaches_save e then 1 else 0) /\
  count is_error (Controller.added e w)
    = (if stage_raises e then 1 else 0) /\
  count is_complete (Controller.added e w)
    + count is_error (Controller.added e w) <= 1 /\
  (reaches_save e = false -> stage_raises e = false ->
   Controller.succeeds e Controller.RpicamVid = false \/
   Controller.succeeds e Controller.FfmpegConvert = false \/
   Controller.succeeds e Controller.FfmpegFrame = false).
Proof.
  intros Hf. destruct (on_message_idle e w Hf) as (w1 & l1 & Eg & E).
  destruct (guarded_endings e _ _ _ _ Eg) as [Hc He].
  unfold Controller.added. rewrite E. simpl.
  rewrite !count_app, Hc, He. simpl. rewrite !Nat.add_0_r.
  split; [done|]. split; [done|].
  unfold reaches_save, stage_raises, captured, is_dict.
  destruct (Controller.payload e) as [x|j]; simpl; [split; [lia|done]|].
  destruct j; simpl;
    destruct (Controller.succeeds e Controller.Makedirs),
             (Controller.succeeds e Controller.RpicamVid),
             (Controller.succeeds e Controller.FfmpegConvert),
             (Controller.succeeds e Controller.FfmpegFrame),
             (Controller.succeeds e Controller.YoloPredict);
    simpl; (split; [lia|]); intros; try discriminate; auto.
Qed.

Lemma run_ends_one_way_witness :
  count is_complete (Controller.added camera_down idle) = 0 /\
  count is_error (Controller.added camera_down idle) = 0 /\
  count is_complete (Controller.added not_an_object idle) = 0 /\
  count is_error (Controller.added not_an_object idle) = 1 /\
  count is_complete (Controller.added offline idle) = 1 /\
  count is_error (Controller.added offline idle) = 0.
Proof.
  destruct (run_ends_one_way camera_down idle eq_refl) as (H1 & H2 & _).
  destruct (run_ends_one_way not_an_object idle eq_refl) as (H3 & H4 & _).
  destruct (run_ends_one_way offline idle eq_refl) as (H5 & H6 & _).
  repeat split; assumption.
Defined.



(** X9.  In a run that finds the gate idle, has a dict as payload, gets
    through capture, extraction and classification and whose INSERT goes
    through, the row appended carries the label and the confidence of the
    classification; a notification is sent exactly for an animal and is
    about that same classification; and a frame without an animal is
    logged as "False Positive" with confidence 0 and not notified. *)
Theorem row_and_notification_agree
    (e : Controller.env) (w : Controller.world) (m : gmap string json) :
  Controller.is_processing w = false ->
  Controller.payload e = inr (JObj m) ->
  classified e ->
  Controller.succeeds e Controller.SqliteInsert = true ->
  let d := Controller.scan (Controller.names e) (Controller.results e) in
  exists r,
    Controller.captures (Controller.deliver e w)
      = Controller.captures w ++ [r] /\
    Captures.classification r = Controller.class d /\
    Captures.confidence r = Controller.confidence d /\
    (Controller.is_animal d = true ->
     exists t, (t, Controller.SendingNotification d)
                 ∈ Controller.added e w) /\
    (forall t d', (t, Controller.SendingNotification d')
                    ∈ Controller.added e w ->
                  d' = d /\ Controller.is_animal d = true) /\
    (Controller.is_animal d = false ->
     Captures.classification r = "False Positive" /\
     Captures.confidence r = 0%Q /\
     count is_notify (Controller.added e w) = 0).
Proof.
  intros Hf Hp Hc Hi d.
  destruct (on_message_idle e w Hf) as (w1 & l1 & Eg & E).
  destruct (guarded_complete e
              {| Controller.is_processing := true;
                 Controller.captures := Controller.captures w;
                 Controller.clock := Controller.clock w |} m Hp Hc)
    as (w' & l & Eg' & Hcap & _ & _ & _ & Hn & _).
  rewrite Eg in Eg'. injection Eg' as <- <-. rewrite Hi in Hcap.
  destruct (guarded_agree e
              {| Controller.is_processing := true;
                 Controller.captures := Controller.captures w;
                 Controller.clock := Controller.clock w |} m Hp Hc)
    as (w' & l & Eg' & Hsend & Hsame).
  rewrite Eg in Eg'. injection Eg' as <- <-.
  fold d in Hn, Hsend, Hsame.
  unfold Controller.deliver, Controller.added. rewrite E. simpl in *.
  eexists. split; [exact Hcap|]. simpl. fold d.
  split; [done|]. split; [done|]. split; [|split].
  - intros Ha. destruct (Hsend Ha) as [t Ht]. exists t.
    do 2 apply list_elem_of_further. apply elem_of_app. by left.
  - intros t d' H.
    apply elem_of_cons in H as [H|H]; [discriminate|].
    apply elem_of_cons in H as [H|H]; [discriminate|].
    apply elem_of_app in H as [H|H].
    + pose proof (Hsame t d' H) as ->. split; [done|].
      destruct (Controller.is_animal d) eqn:Ea; [done|].
      exfalso. clear -Hn H.
      induction l1 as [|[t0 ev] l1 IH]; [by apply elem_of_nil in H|].
      simpl in Hn. apply elem_of_cons in H as [H|H].
      * injection H as <- <-. simpl in Hn. lia.
      * apply IH; [lia|done].
    + apply elem_of_cons in H as [H|H]; [discriminate|].
      apply list_elem_of_singleton in H. discriminate.
  - intros Ha. rewrite Ha in Hn.
    destruct (scan_best (Controller.names e) (Controller.results e))
      as [(_ & Ed & _)|(Ht & _)]; [|fold d in Ht; congruence].
    fold d in Ed. rewrite Ed. simpl.
    split; [done|]. split; [done|]. rewrite count_app, Hn. reflexivity.
Qed.

Lemma row_and_notification_agree_witness :
  exists r,
    Controller.captures (Controller.deliver cat_seen idle) = [] ++ [r] /\
    Captures.classification r = "Cat" /\
    Captures.confidence r = 0.9%Q.
Proof.
  assert (Hc : classified cat_seen) by (repeat split).
  destruct (row_and_notification_agree cat_seen idle _
              eq_refl eq_refl Hc eq_refl) as (r & H1 & H2 & H3 & _).
  exists r. repeat split; assumption.
Defined.

(** * Further properties of the classification *)

Section MoreClassifyFacts.
Import Controller.
Variable names : nat -> string.

Lemma animal_label (b : box) :
  animal names b -> capitalize (names (cls b)) ∈ labels.
Proof.
  unfold animal, ANIMAL_CLASSES, labels. intros H.
  repeat (apply elem_of_cons in H as [->|H]; [simpl; here|]).
  by apply elem_of_nil in H.
Qed.

(** The running best only grows along the boxes. *)
Lemma foldl_consider_grows (bs : list box) (d : detection) :
  (confidence d <= confidence (foldl (consider names) d bs))%Q /\
  (is_animal d = true -> is_animal (foldl (consider names) d bs) = true).
Proof.
  revert d. induction bs as [|b bs IH]; intros d; simpl.
  { split; [lra|done]. }
  destruct (IH (consider names d b)) as [IHc IHa].
  destruct (consider_cases names d b) as [(_ & Hlt & E)|(_ & E)];
    rewrite E in *; simpl in *.
  - split; [lra|]. intros _. by apply IHa.
  - done.
Qed.
End MoreClassifyFacts.

(** X10.  Whatever the model reports, the label of the result is "False
    Positive" or the capitalized name of one of the ten animal classes,
    the confidence is never negative, and the result is an animal exactly
    when its confidence is above zero. *)
Theorem label_and_confidence_range
    (names : nat -> string) (results : list (list Controller.box)) :
  let d := Controller.scan names results in
  Controller.class d ∈ labels /\
  (0 <= Controller.confidence d)%Q /\
  (Controller.is_animal d = true <-> (0 < Controller.confidence d)%Q) /\
  (Controller.is_animal d = false <-> Controller.class d = "False Positive").
Proof.
  intros d.
  destruct (scan_best names results)
    as [(Hf & E & _)|(Ht & pre & b & post & _ & Ha & Hp & Hc & Hcl & _)];
    fold d in Hf || fold d in Ht.
  - fold d in E. rewrite E. simpl.
    split; [here|]. split; [lra|]. split; [|done].
    split; [discriminate|]. intros H. lra.
  - fold d in Hc, Hcl. rewrite Ht, Hc, Hcl.
    pose proof (animal_label names b Ha) as Hl.
    split; [done|]. split; [lra|]. split; [done|].
    split; [discriminate|].
    intros E. exfalso. clear -Ha E. unfold animal in Ha.
    unfold Controller.ANIMAL_CLASSES in Ha.
    repeat (apply elem_of_cons in Ha as [Hn|Ha];
            [rewrite Hn in E; discriminate|]).
    by apply elem_of_nil in Ha.
Qed.

(** X11.  The verdict and the confidence do not depend on the order in
    which the model lists its detections, nor on how they are grouped into
    results: two frames with the same detections give the same [is_animal]
    and equal confidences. *)
Theorem confidence_independent_of_order
    (names : nat -> string) (rs rs' : list (list Controller.box)) :
  concat rs ≡ₚ concat rs' ->
  Controller.is_animal (Controller.scan names rs)
    = Controller.is_animal (Controller.scan names rs') /\
  (Controller.confidence (Controller.scan names rs)
     == Controller.confidence (Controller.scan names rs'))%Q.
Proof.
  intros Hperm.
  destruct (scan_best names rs)
    as [(Hf & E & Hn)|(Ht & pre & b & post & Eb & Ha & Hp & Hc & _ & Hpre
                       & Hpost)];
  destruct (scan_best names rs')
    as [(Hf' & E' & Hn')|(Ht' & pre' & b' & post' & Eb' & Ha' & Hp' & Hc' & _
                          & Hpre' & Hpost')].
  - rewrite E, E'. split; [done|reflexivity].
  - exfalso.
    assert (Hb : b' ∈ concat rs).
    { rewrite Hperm, Eb'. apply elem_of_app. right. by left. }
    specialize (Hn b' Hb Ha'). lra.
  - exfalso.
    assert (Hb : b ∈ concat rs').
    { rewrite <- Hperm, Eb. apply elem_of_app. right. by left. }
    specialize (Hn' b Hb Ha). lra.
  - split; [congruence|]. rewrite Hc, Hc'.
    assert (Hmax : forall x, x ∈ concat rs -> animal names x ->
                             (Controller.conf x <= Controller.conf b)%Q).
    { intros x Hx Hax. rewrite Eb in Hx.
      apply elem_of_app in Hx as [Hx|Hx].
      { specialize (Hpre x Hx Hax). lra. }
      apply elem_of_cons in Hx as [->|Hx]; [lra|]. by apply Hpost. }
    assert (Hmax' : forall x, x ∈ concat rs' -> animal names x ->
                              (Controller.conf x <= Controller.conf b')%Q).
    { intros x Hx Hax. rewrite Eb' in Hx.
      apply elem_of_app in Hx as [Hx|Hx].
      { specialize (Hpre' x Hx Hax). lra. }
      apply elem_of_cons in Hx as [->|Hx]; [lra|]. by apply Hpost'. }
    assert (Hb : b ∈ concat rs').
    { rewrite <- Hperm, Eb. apply elem_of_app. right. by left. }
    assert (Hb' : b' ∈ concat rs).
    { rewrite Hperm, Eb'. apply elem_of_app. right. by left. }
    specialize (Hmax b' Hb' Ha'). specialize (Hmax' b Hb Ha). lra.
Qed.

Lemma confidence_independent_of_order_witness :
  Controller.is_animal
    (Controller.scan three_names
       [[Controller.Box 16 0.4; Controller.Box 15 0.9]])
  = Controller.is_animal
      (Controller.scan three_names
         [[Controller.Box 15 0.9]; [Controller.Box 16 0.4]]) /\
  (Controller.confidence
     (Controller.scan three_names
        [[Controller.Box 16 0.4; Controller.Box 15 0.9]])
   == Controller.confidence
        (Controller.scan three_names
           [[Controller.Box 15 0.9]; [Controller.Box 16 0.4]]))%Q.
Proof.
  apply confidence_independent_of_order. simpl. apply perm_swap.
Defined.

(** X12.  Further detections never lower the result: with more results
    appended, the confidence is at least what it was, and a frame found to
    hold an animal still holds one. *)
Theorem more_detections_never_lower
    (names : nat -> string) (rs rs' : list (list Controller.box)) :
  (Controller.confidence (Controller.scan names rs)
     <= Controller.confidence (Controller.scan names (rs ++ rs')))%Q /\
  (Controller.is_animal (Controller.scan names rs) = true ->
   Controller.is_animal (Controller.scan names (rs ++ rs')) = true).
Proof.
  rewrite !scan_flat, concat_app, foldl_app.
  apply foldl_consider_grows.
Qed.

(** * Further properties of the dashboard *)

Section PathFacts.
Import Dashboard.

Lemma has_slash_app (a b : string) :
  has_slash (a +:+ b) = has_slash a || has_slash b.
Proof.
  induction a as [|c a IH]; simpl; [done|]. by rewrite IH, orb_assoc.
Qed.

Lemma basename_whole (s : string) : has_slash s = false -> basename s = s.
Proof. destruct s as [|c r]; [done|]. intros H. simpl in *. by rewrite H. Qed.

Lemma basename_clean (s : string) : has_slash (basename s) = false.
Proof.
  induction s as [|c r IH]; [done|].
  change (basename (String c r))
    with (if has_slash (String c r) then basename r else String c r).
  by destruct (has_slash (String c r)) eqn:E.
Qed.

Lemma basename_tail (s : string) : exists dir, s = dir +:+ basename s.
Proof.
  induction s as [|c r [dir IH]]; [by exists ""|].
  change (basename (String c r))
    with (if has_slash (String c r) then basename r else String c r).
  destruct (has_slash (String c r)).
  - exists (String c dir).
    change (String c r = String c (dir +:+ basename r)). by f_equal.
  - by exists "".
Qed.

Lemma basename_join (dir name : string) :
  has_slash name = false -> basename (path_join dir name) = name.
Proof.
  intros H. unfold path_join. induction dir as [|c d IH].
  - simpl. by apply basename_whole.
  - change (basename (String c d +:+ "/" +:+ name))
      with (if has_slash (String c (d +:+ "/" +:+ name))
            then basename (d +:+ "/" +:+ name)
            else String c (d +:+ "/" +:+ name)).
    replace (has_slash (String c (d +:+ "/" +:+ name))) with true; [done|].
    simpl. rewrite has_slash_app. simpl. by rewrite !orb_true_r.
Qed.
End PathFacts.

(** X13.  The name the dashboard derives from a video path holds no slash
    and is the end of the path: what lies before it is dropped.  A path
    without a slash is kept whole, and for a file name without a slash
    joined to a directory the name comes back. *)
Theorem basename_last_component (s dir name : string) :
  Dashboard.has_slash (Dashboard.basename s) = false /\
  (exists before, s = before +:+ Dashboard.basename s) /\
  (Dashboard.has_slash s = false -> Dashboard.basename s = s) /\
  (Dashboard.has_slash name = false ->
   Dashboard.basename (path_join dir name) = name).
Proof.
  split; [apply basename_clean|]. split; [apply basename_tail|].
  split; [apply basename_whole|apply basename_join].
Qed.

Section ListingFacts.
Import Dashboard.
#[local] Existing Instance id_desc_trans.
#[local] Existing Instance id_desc_total.

(** A row whose id is above all the others comes first in the listing. *)
Lemma newest_first (t : list Captures.row) (r : Captures.row) :
  (forall x, x ∈ t -> Captures.id x < Captures.id r) ->
  exists rest, select_all (t ++ [r]) = r :: rest /\ rest ≡ₚ t.
Proof.
  intros Hmax. unfold select_all.
  pose proof (merge_sort_Permutation id_desc (t ++ [r])) as Hperm.
  pose proof (StronglySorted_merge_sort id_desc (t ++ [r])) as Hs.
  destruct (merge_sort id_desc (t ++ [r])) as [|x l].
  { apply Permutation_nil_l in Hperm. by destruct t. }
  apply StronglySorted_inv in Hs as [_ Hall].
  rewrite Forall_forall in Hall.
  assert (Hx : x ∈ t ++ [r]) by (rewrite <- Hperm; by left).
  assert (Hr : r ∈ x :: l).
  { rewrite Hperm. apply elem_of_app. right. by left. }
  assert (E : x = r).
  { apply elem_of_app in Hx as [Hx|Hx].
    - apply elem_of_cons in Hr as [->|Hr]; [done|].
      specialize (Hall r Hr). unfold id_desc in Hall.
      specialize (Hmax x Hx). lia.
    - by apply list_elem_of_singleton in Hx. }
  subst x. exists l. split; [done|].
  apply (Permutation_cons_inv (a := r)).
  rewrite Hperm. by rewrite Permutation_app_comm.
Qed.
End ListingFacts.

(** X14.  What the controller writes the dashboard shows first.  After a
    run that finds the gate idle, has a dict as payload, gets through
    capture, extraction and classification and whose INSERT goes through,
    the listing of the route [/] begins with the new row, and offers its
    video under the file name of the MP4 in the capture directory
    (provided the time stamp holds no slash); the rows listed after it are
    those the table had before. *)
Theorem new_row_listed_first
    (e : Controller.env) (w : Controller.world) (m : gmap string json) :
  Controller.is_processing w = false ->
  Controller.payload e = inr (JObj m) ->
  classified e ->
  Controller.succeeds e Controller.SqliteInsert = true ->
  Dashboard.has_slash
    (Controller.strftime e "%Y%m%d_%H%M%S" (Controller.clock w)) = false ->
  exists rest,
    Dashboard.index (Some (Controller.captures (Controller.deliver e w)))
    = inr ({| Dashboard.columns :=
                Controller.row_of (Controller.captures w) (db_data_of e w m);
              Dashboard.web_video_path :=
                Some ("vid_"
                      +:+ Controller.strftime e "%Y%m%d_%H%M%S"
                            (Controller.clock w)
                      +:+ ".mp4") |} :: rest) /\
    Dashboard.columns <$> rest ≡ₚ Controller.captures w.
Proof.
  intros Hf Hp Hc Hi Hts.
  destruct (on_message_idle e w Hf) as (w1 & l1 & Eg & E).
  destruct (guarded_complete e
              {| Controller.is_processing := true;
                 Controller.captures := Controller.captures w;
                 Controller.clock := Controller.clock w |} m Hp Hc)
    as (w' & l & Eg' & Hcap & _).
  rewrite Eg in Eg'. injection Eg' as <- <-. rewrite Hi in Hcap.
  simpl in Hcap.
  change (db_data_of e _ m) with (db_data_of e w m) in Hcap.
  unfold Controller.deliver. rewrite E.
  cbn [fst snd Controller.captures]. rewrite Hcap. unfold Dashboard.index.
  destruct (newest_first (Controller.captures w)
              (Controller.row_of (Controller.captures w) (db_data_of e w m)))
    as (rest & Es & Hperm).
  { intros x Hx. simpl. by apply next_id_fresh. }
  exists (Dashboard.process <$> rest). rewrite Es, fmap_cons.
  split; [|by rewrite columns_process].
  f_equal. f_equal. unfold Dashboard.process. f_equal.
  cbn [Captures.video_path Controller.row_of db_data_of
       Controller.DbData.video_path Controller.truthy default].
  replace (String.eqb _ "") with false by reflexivity.
  cbn [negb]. f_equal. apply basename_join.
  rewrite !has_slash_app, Hts. reflexivity.
Qed.

Lemma new_row_listed_first_witness :
  exists rest,
    Dashboard.index
      (Some (Controller.captures (Controller.deliver cat_seen idle)))
    = inr ({| Dashboard.columns :=
                Controller.row_of [] (db_data_of cat_seen idle
                  {[ "temp" := JFloat 21.5; "battery" := JInt 87 ]});
              Dashboard.web_video_path :=
                Some ("vid_" +:+ stamp "%Y%m%d_%H%M%S" 100 +:+ ".mp4") |}
           :: rest) /\
    Dashboard.columns <$> rest ≡ₚ [].
Proof.
  assert (Hc : classified cat_seen) by (repeat split).
  apply (new_row_listed_first cat_seen idle _ eq_refl eq_refl Hc eq_refl).
  vm_compute. reflexivity.
Defined.

Section ConnectionFacts.
Import Connection.

(** Once the context holds a connection, every call returns it and
    nothing is opened. *)
Lemma get_db_each_cached (tries : list bool) (g : context) (db : nat) :
  database g = Some db ->
  get_db_each tries g = (replicate (length tries) (inr db), g).
Proof.
  intros Hg. induction tries as [|c rest IH]; [done|].
  simpl. unfold get_db. rewrite Hg. by rewrite IH.
Qed.

Lemma get_db_each_fresh (tries : list bool) (n : nat) (cl : list nat) :
  let g0 := {| database := None; opened := n; closed := cl |} in
  let g := snd (get_db_each tries g0) in
  (forall r, r ∈ fst (get_db_each tries g0) ->
             r = inr n \/ r = inl SqliteError) /\
  (if existsb id tries
   then database g = Some n /\ opened g = S n
   else database g = None /\ opened g = n) /\
  closed g = cl.
Proof.
  simpl. induction tries as [|c rest IH].
  { simpl. split; [|done]. intros r Hr. by apply elem_of_nil in Hr. }
  destruct c.
  - change (get_db_each (true :: rest)
              {| database := None; opened := n; closed := cl |})
      with (let (rs, g'') :=
              get_db_each rest {| database := Some n; opened := S n;
                                  closed := cl |} in
            (@inr exn nat n :: rs, g'')).
    rewrite (get_db_each_cached rest
               {| database := Some n; opened := S n; closed := cl |}
               n eq_refl).
    simpl. split; [|done]. intros r Hr.
    apply elem_of_cons in Hr as [->|Hr]; [by left|].
    apply elem_of_replicate in Hr as [-> _]. by left.
  - change (get_db_each (false :: rest)
              {| database := None; opened := n; closed := cl |})
      with (let (rs, g'') :=
              get_db_each rest {| database := None; opened := n;
                                  closed := cl |} in
            (@inl exn nat SqliteError :: rs, g'')).
    destruct (get_db_each rest {| database := None; opened := n;
                                  closed := cl |}) as [rs g] eqn:E.
    simpl in *. destruct IH as (Hrs & Hg & Hcl).
    split; [|done]. intros r Hr.
    apply elem_of_cons in Hr as [->|Hr]; [by right|]. by apply Hrs.
Qed.
End ConnectionFacts.

(** X15.  Within one request, however often [get_db] is called and
    whenever the database can or cannot be opened: at most one connection
    is opened, every call that returns gives that same connection, a call
    made after one has succeeded cannot fail, and tearing the context down
    closes the connection once if one was opened and does nothing
    otherwise. *)
Theorem one_connection_per_request
    (tries : list bool) (n : nat) (cl : list nat) :
  let g0 := {| Connection.database := None; Connection.opened := n;
               Connection.closed := cl |} in
  let rs := fst (Connection.get_db_each tries g0) in
  let g :=
    Connection.close_connection (snd (Connection.get_db_each tries g0)) in
  (forall r, r ∈ rs -> r = inr n \/ r = inl SqliteError) /\
  (forall i j, i < j -> rs !! i = Some (inr n) -> rs !! j = Some (inr n)
               \/ rs !! j = None) /\
  Connection.opened g = (if existsb id tries then S n else n) /\
  Connection.closed g = (if existsb id tries then n :: cl else cl).
Proof.
  intros g0 rs g.
  destruct (get_db_each_fresh tries n cl) as (Hrs & Hg & Hcl).
  fold g0 in Hrs, Hg, Hcl. split; [exact Hrs|]. split.
  - subst rs g0. clear. revert n cl.
    induction tries as [|c rest IH]; intros n cl i j Hij Hi.
    { by right. }
    destruct c.
    + change (Connection.get_db_each (true :: rest)
                {| Connection.database := None; Connection.opened := n;
                   Connection.closed := cl |})
        with (let (rs, g'') :=
                Connection.get_db_each rest
                  {| Connection.database := Some n;
                     Connection.opened := S n; Connection.closed := cl |} in
              (@inr exn nat n :: rs, g'')) in *.
      rewrite (get_db_each_cached rest
                 {| Connection.database := Some n;
                    Connection.opened := S n; Connection.closed := cl |}
                 n eq_refl) in *.
      simpl in *.
      destruct j as [|j]; [lia|]. simpl.
      destruct (decide (j < length rest)) as [Hlt|Hge].
      * left. by apply lookup_replicate_2.
      * right. apply lookup_ge_None. rewrite length_replicate. lia.
    + change (Connection.get_db_each (false :: rest)
                {| Connection.database := None; Connection.opened := n;
                   Connection.closed := cl |})
        with (let (rs, g'') :=
                Connection.get_db_each rest
                  {| Connection.database := None;
                     Connection.opened := n; Connection.closed := cl |} in
              (@inl exn nat SqliteError :: rs, g'')) in *.
      specialize (IH n cl).
      destruct (Connection.get_db_each rest _) as [rs' g'] eqn:E.
      simpl in *. destruct i as [|i]; [discriminate|].
      destruct j as [|j]; [lia|]. simpl in *.
      apply (IH i j); [lia|done].
  - subst g. unfold Connection.close_connection.
    destruct (existsb id tries); destruct Hg as [Hd Ho]; rewrite Hd; simpl;
      by rewrite ?Ho, ?Hcl.
Qed.

(** X16.  Start-up enters the message loop exactly when the model loads and
    the MQTT client connects: a failure of [init_db] is printed and does
    not stop it.  [init_db] never loses a row: an existing table is left as
    it is, a missing one is created empty when the statements go through,
    and running start-up again changes nothing more. *)
Theorem startup_outcomes (b b' : Startup.boot) (db : Startup.store) :
  (fst (Startup.main b db) = Startup.LoopForever <->
   Startup.model_loads b = true /\ Startup.connects b = true) /\
  (forall t, db = Some t -> snd (Startup.main b db) = Some t) /\
  (Startup.model_loads b = true -> Startup.db_ok b = true ->
   snd (Startup.main b db) = Some (default [] db)) /\
  (Startup.db_ok b = false -> snd (Startup.main b db) = db) /\
  (is_Some (snd (Startup.main b db)) ->
   snd (Startup.main b' (snd (Startup.main b db)))
   = snd (Startup.main b db)).
Proof.
  unfold Startup.main, Startup.init_db.
  destruct b as [ml ok cn], b' as [ml' ok' cn']. simpl.
  destruct ml, ok, cn, ml', ok', cn', db as [t|]; simpl;
    repeat split; try done; try (intros [? ?]; done);
    try (intros ? [= <-]; done); try (intros [? [= ]]; done).
Qed.
